(** * TweetStream: connection resilience and event delivery

    A shallow embedding of [src/stream/TweetStream.ts].

    The class is a Node [EventEmitter] that owns one HTTP request/response
    pair, a keep-alive watchdog, a retry timer and an incremental parser.
    It is modelled as a record of its fields plus the part of the JS heap
    its methods reach: the request/response pairs it has been given, the
    timers it has set and the [reconnect()] calls suspended at their
    [await]. Every method is a computation in a small
    state/writer/exception monad; the writer part records, in program
    order, each effect on the outside world (events emitted, timers set
    and cleared, parser calls, calls on the transport handles).

    An [async] method is split at its [await]: the part before it runs
    with the call, the part after it when the connection factory's promise
    settles. What the environment does (transport events, time passing,
    promises settling, calls of the consumer) is an [input]; [step] gives
    the stream's reaction.

    Modelling conventions:
    - JS numbers are restricted to integers and [+Infinity] ([number]);
      arithmetic on them is that of the integers, which is the arithmetic
      of the class as long as operands and results are safe integers (at
      most [MAX_SAFE_INTEGER] in magnitude).
    - Event names are the members of the enum and strings; symbols are
      left out.
    - A [Buffer] chunk is represented by the value of [chunk.toString()].
    - Subscribers are opaque function identities ([handler]); they observe
      events and neither throw nor call back into the stream.
    - [EventEmitter]'s meta events ([newListener], [removeListener]) and
      [once] wrappers are left out.
    - The connection factory ([RequestHandlerHelper]) and the parser
      ([TweetStreamParser]) are not part of the sources at hand; the
      factory is part of the environment, the parser an interface. *)

From stdpp Require Import gmap strings list pretty.

Open Scope Z_scope.

(** ** Values and events *)

(** [number | Infinity], as used by [autoReconnectRetries] and
    [keepAliveTimeoutMs]. *)
Inductive number :=
| Num (z : Z)
| Infinity.

Module ETwitterStreamEvent.
(** The enum of [../types]; [Custom] stands for any other event name a
    subscriber may pass to [on]. *)
Inductive t :=
| Connected
| ConnectionError
| ConnectionClosed
| ConnectionLost
| ReconnectAttempt
| Reconnected
| ReconnectError
| ReconnectLimitExceeded
| DataKeepAlive
| Data
| DataError
| TweetParseError
| Error
| Custom (name : string).

#[global] Instance eq_dec : EqDecision t.
Proof. solve_decision. Defined.
End ETwitterStreamEvent.

Abbreviation event := ETwitterStreamEvent.t.
Import ETwitterStreamEvent.

(** Identity of a subscribed callback. *)
Abbreviation handler := nat.

(** Index of a request/response pair in the heap of transport handles. *)
Abbreviation handle := nat.

(** [Number.MAX_SAFE_INTEGER], [2^53 - 1]: up to it doubles count the
    integers one by one. *)
Definition MAX_SAFE_INTEGER : Z := 9007199254740991.

(** ** Property keys *)

Definition digit (a : Ascii.ascii) : option N :=
  let n := Ascii.N_of_ascii a in
  if ((48 <=? n) && (n <=? 57))%N then Some (n - 48)%N else None.

Fixpoint numeral (s : string) (acc : N) : option N :=
  match s with
  | EmptyString => Some acc
  | String a s' =>
      match digit a with
      | Some d => numeral s' (10 * acc + d)%N
      | None => None
      end
  end.

(** The array index a property key is, if it is one: a decimal numeral
    without leading zero, at most [2^32 - 2]. *)
Definition array_index (key : string) : option N :=
  match key with
  | EmptyString => None
  | String a rest =>
      if decide (a = Ascii.ascii_of_nat 48) then
        if decide (rest = EmptyString) then Some 0%N else None
      else
        match numeral key 0 with
        | Some n => if (n <=? 4294967294)%N then Some n else None
        | None => None
        end
  end.

(** Modelled from the spec: the members of the enum (declared in
    [../types], not part of the sources at hand) are named by words, such
    as [connected] or [reconnect-attempt]; only a name a subscriber
    chooses can be an array index. *)
Definition index_of (ev : event) : option N :=
  match ev with
  | Custom name => array_index name
  | _ => None
  end.

(** Own property keys come in this order: array indices, ascending, then
    the other names in the order of their creation. *)
Fixpoint insert_index (ev : event) (l : list event) : list event :=
  match l with
  | [] => [ev]
  | e :: l' =>
      if (default 0 (index_of ev) <=? default 0 (index_of e))%N then ev :: l
      else e :: insert_index ev l'
  end.

Definition ownKeys (created : list event) : list event :=
  foldr insert_index [] (filter (fun ev => is_Some (index_of ev)) created)
    ++ filter (fun ev => ¬ is_Some (index_of ev)) created.

Section Stream.

(** [Payload] is the type of decoded messages ([T = any] in the source),
    [Parser] the state of the external [TweetStreamParser]. *)
Context {Payload Parser : Type}.

(** Arguments passed to subscribers. *)
Inductive value :=
| VUndefined
| VPayload (eventData : Payload)
| VError (message : string)
| VNumber (n : Z)
| VStreamError (type : event) (error : value).

(** What the external parser reports while it consumes a chunk. *)
Inductive EStreamParserEvent :=
| ParsedData (eventData : Payload)
| ParseError (error : string).

(** The interface of [./TweetStreamParser] used by the stream: the
    constructor, [push(chunk)] (which synchronously emits parser events)
    and [reset()]. *)
Class TweetStreamParser := {
  parser_new : Parser;
  parser_push : string -> Parser -> Parser * list EStreamParserEvent;
  parser_reset : Parser -> Parser;
}.

Context `{TweetStreamParser}.

(** The part of [TRequestFullStreamData] the stream reads. *)
Record TRequestFullStreamData := {
  payloadIsError : option (Payload -> bool);
}.

(** [Partial<IConnectTweetStreamParams>]: [None] is [undefined],
    [Infinity] is ['unlimited'] resp. ['disable']. *)
Record IConnectTweetStreamParams := {
  opt_autoReconnect : option bool;
  opt_autoReconnectRetries : option number;
  opt_keepAliveTimeout : option number;
}.

(** One request/response pair handed out by the connection factory:
    whether [req.destroyed] is set and whether the stream's listeners are
    attached to [req] and to [res]. *)
Record connection := {
  destroyed : bool;
  req_listeners : bool;
  res_listeners : bool;
}.

(** Who awaits a pending [reconnect()]: a caller outside the class
    ([connect()] or a direct [reconnect()]), or the [try] block of
    [onConnectionError(retries)]. *)
Inductive caller :=
| FromOutside
| FromRetry (retries : Z).

(** A [reconnect()] suspended at its [await]; [initialConnection] was
    computed before suspending. *)
Record suspended := {
  initialConnection : bool;
  awaited_by : caller;
}.

(** The two timer fields of the class. *)
Inductive timer := RetryTimeout | KeepAliveTimeout.

(** The two callbacks the stream hands to [setTimeout]:
    [this.onKeepAliveTimeout] and, in [makeAutoReconnectRetry(retries)],
    the closure [() => this.onConnectionError(retries - 1)]. *)
Inductive callback :=
| OnKeepAliveTimeout
| OnRetryTimeout (retries : Z).

(** A scheduled [NodeJS.Timeout]: its handle, the milliseconds left and
    what it will call. *)
Record timeout := {
  timeout_id : nat;
  remaining : Z;
  callback_of : callback;
}.

(** Effects on the outside world, in program order. *)
Inductive action :=
| AEmit (ev : event) (arg : value) (receivers : list handler)
| ARemoveAllListeners
| ASetTimeout (t : timer) (ms : Z)
| AClearTimeout (t : timer)
| AMakeRequest
| AReqOn (c : handle)
| AResOn (c : handle)
| AReqRemoveAllListeners (c : handle)
| AResRemoveAllListeners (c : handle)
| AReqDestroy (c : handle)
| AParserPush (chunk : string)
| AParserReset
| ARejected (e : value).

(** The instance. [retryTimeout] and [keepAliveTimeout] hold the handles
    returned by [setTimeout]. [events] is the emitter's registry in order
    of first registration. The rest is the heap the methods reach:
    [connections] the request/response pairs, [pending] the suspended
    [reconnect()] calls, [timeouts] the timers set by this stream that are
    still scheduled, [timeout_seq] the next timer handle. *)
Record stream := {
  autoReconnect : bool;
  autoReconnectRetries : number;
  keepAliveTimeoutMs : number;
  retryTimeout : option nat;
  keepAliveTimeout : option nat;
  parser : Parser;
  req : option handle;
  res : option handle;
  requestData : TRequestFullStreamData;
  events : list (event * list handler);
  connections : list connection;
  pending : list suspended;
  timeouts : list timeout;
  timeout_seq : nat;
}.

Definition set_autoReconnect (v : bool) (s : stream) : stream :=
  {| autoReconnect := v;
     autoReconnectRetries := autoReconnectRetries s;
     keepAliveTimeoutMs := keepAliveTimeoutMs s;
     retryTimeout := retryTimeout s;
     keepAliveTimeout := keepAliveTimeout s;
     parser := parser s;
     req := req s;
     res := res s;
     requestData := requestData s;
     events := events s;
     connections := connections s;
     pending := pending s;
     timeouts := timeouts s;
     timeout_seq := timeout_seq s |}.

Definition set_autoReconnectRetries (v : number) (s : stream) : stream :=
  {| autoReconnect := autoReconnect s;
     autoReconnectRetries := v;
     keepAliveTimeoutMs := keepAliveTimeoutMs s;
     retryTimeout := retryTimeout s;
     keepAliveTimeout := keepAliveTimeout s;
     parser := parser s;
     req := req s;
     res := res s;
     requestData := requestData s;
     events := events s;
     connections := connections s;
     pending := pending s;
     timeouts := timeouts s;
     timeout_seq := timeout_seq s |}.

Definition set_keepAliveTimeoutMs (v : number) (s : stream) : stream :=
  {| autoReconnect := autoReconnect s;
     autoReconnectRetries := autoReconnectRetries s;
     keepAliveTimeoutMs := v;
     retryTimeout := retryTimeout s;
     keepAliveTimeout := keepAliveTimeout s;
     parser := parser s;
     req := req s;
     res := res s;
     requestData := requestData s;
     events := events s;
     connections := connections s;
     pending := pending s;
     timeouts := timeouts s;
     timeout_seq := timeout_seq s |}.

Definition set_retryTimeout (v : option nat) (s : stream) : stream :=
  {| autoReconnect := autoReconnect s;
     autoReconnectRetries := autoReconnectRetries s;
     keepAliveTimeoutMs := keepAliveTimeoutMs s;
     retryTimeout := v;
     keepAliveTimeout := keepAliveTimeout s;
     parser := parser s;
     req := req s;
     res := res s;
     requestData := requestData s;
     events := events s;
     connections := connections s;
     pending := pending s;
     timeouts := timeouts s;
     timeout_seq := timeout_seq s |}.

Definition set_keepAliveTimeout (v : option nat) (s : stream) : stream :=
  {| autoReconnect := autoReconnect s;
     autoReconnectRetries := autoReconnectRetries s;
     keepAliveTimeoutMs := keepAliveTimeoutMs s;
     retryTimeout := retryTimeout s;
     keepAliveTimeout := v;
     parser := parser s;
     req := req s;
     res := res s;
     requestData := requestData s;
     events := events s;
     connections := connections s;
     pending := pending s;
     timeouts := timeouts s;
     timeout_seq := timeout_seq s |}.

Definition set_parser (v : Parser) (s : stream) : stream :=
  {| autoReconnect := autoReconnect s;
     autoReconnectRetries := autoReconnectRetries s;
     keepAliveTimeoutMs := keepAliveTimeoutMs s;
     retryTimeout := retryTimeout s;
     keepAliveTimeout := keepAliveTimeout s;
     parser := v;
     req := req s;
     res := res s;
     requestData := requestData s;
     events := events s;
     connections := connections s;
     pending := pending s;
     timeouts := timeouts s;
     timeout_seq := timeout_seq s |}.

Definition set_requestData (v : TRequestFullStreamData) (s : stream) : stream :=
  {| autoReconnect := autoReconnect s;
     autoReconnectRetries := autoReconnectRetries s;
     keepAliveTimeoutMs := keepAliveTimeoutMs s;
     retryTimeout := retryTimeout s;
     keepAliveTimeout := keepAliveTimeout s;
     parser := parser s;
     req := req s;
     res := res s;
     requestData := v;
     events := events s;
     connections := connections s;
     pending := pending s;
     timeouts := timeouts s;
     timeout_seq := timeout_seq s |}.

Definition set_events (v : list (event * list handler)) (s : stream) : stream :=
  {| autoReconnect := autoReconnect s;
     autoReconnectRetries := autoReconnectRetries s;
     keepAliveTimeoutMs := keepAliveTimeoutMs s;
     retryTimeout := retryTimeout s;
     keepAliveTimeout := keepAliveTimeout s;
     parser := parser s;
     req := req s;
     res := res s;
     requestData := requestData s;
     events := v;
     connections := connections s;
     pending := pending s;
     timeouts := timeouts s;
     timeout_seq := timeout_seq s |}.

Definition set_connections (v : list connection) (s : stream) : stream :=
  {| autoReconnect := autoReconnect s;
     autoReconnectRetries := autoReconnectRetries s;
     keepAliveTimeoutMs := keepAliveTimeoutMs s;
     retryTimeout := retryTimeout s;
     keepAliveTimeout := keepAliveTimeout s;
     parser := parser s;
     req := req s;
     res := res s;
     requestData := requestData s;
     events := events s;
     connections := v;
     pending := pending s;
     timeouts := timeouts s;
     timeout_seq := timeout_seq s |}.

Definition set_pending (v : list suspended) (s : stream) : stream :=
  {| autoReconnect := autoReconnect s;
     autoReconnectRetries := autoReconnectRetries s;
     keepAliveTimeoutMs := keepAliveTimeoutMs s;
     retryTimeout := retryTimeout s;
     keepAliveTimeout := keepAliveTimeout s;
     parser := parser s;
     req := req s;
     res := res s;
     requestData := requestData s;
     events := events s;
     connections := connections s;
     pending := v;
     timeouts := timeouts s;
     timeout_seq := timeout_seq s |}.

Definition set_timeouts (v : list timeout) (s : stream) : stream :=
  {| autoReconnect := autoReconnect s;
     autoReconnectRetries := autoReconnectRetries s;
     keepAliveTimeoutMs := keepAliveTimeoutMs s;
     retryTimeout := retryTimeout s;
     keepAliveTimeout := keepAliveTimeout s;
     parser := parser s;
     req := req s;
     res := res s;
     requestData := requestData s;
     events := events s;
     connections := connections s;
     pending := pending s;
     timeouts := v;
     timeout_seq := timeout_seq s |}.

Definition set_req_res (q r : option handle) (s : stream) : stream :=
  {| autoReconnect := autoReconnect s;
     autoReconnectRetries := autoReconnectRetries s;
     keepAliveTimeoutMs := keepAliveTimeoutMs s;
     retryTimeout := retryTimeout s;
     keepAliveTimeout := keepAliveTimeout s;
     parser := parser s;
     req := q;
     res := r;
     requestData := requestData s;
     events := events s;
     connections := connections s;
     pending := pending s;
     timeouts := timeouts s;
     timeout_seq := timeout_seq s |}.

Definition set_timeout_seq (v : nat) (s : stream) : stream :=
  {| autoReconnect := autoReconnect s;
     autoReconnectRetries := autoReconnectRetries s;
     keepAliveTimeoutMs := keepAliveTimeoutMs s;
     retryTimeout := retryTimeout s;
     keepAliveTimeout := keepAliveTimeout s;
     parser := parser s;
     req := req s;
     res := res s;
     requestData := requestData s;
     events := events s;
     connections := connections s;
     pending := pending s;
     timeouts := timeouts s;
     timeout_seq := v |}.

(** ** The monad of methods *)

Inductive result (A : Type) :=
| Ok (a : A)
| Throw (e : value).
Arguments Ok {A} a.
Arguments Throw {A} e.

Definition M (A : Type) : Type := stream -> result A * stream * list action.

Definition ret {A} (a : A) : M A := fun s => (Ok a, s, []).

Definition bind {A B} (m : M A) (k : A -> M B) : M B := fun s =>
  match m s with
  | (Ok a, s1, t1) =>
      match k a s1 with
      | (r, s2, t2) => (r, s2, t1 ++ t2)
      end
  | (Throw e, s1, t1) => (Throw e, s1, t1)
  end.

Definition throw {A} (e : value) : M A := fun s => (Throw e, s, []).

Definition get : M stream := fun s => (Ok s, s, []).

Definition modify (f : stream -> stream) : M unit := fun s => (Ok tt, f s, []).

Definition tell (a : action) : M unit := fun s => (Ok tt, s, [a]).

Definition when (b : bool) (m : M unit) : M unit := if b then m else ret tt.

Declare Scope stream_scope.
Delimit Scope stream_scope with stream.
Notation "x ← y ; z" := (bind y (fun x => z))
  (at level 20, y at level 100, z at level 200, only parsing) : stream_scope.
Notation "x ;; z" := (bind x (fun _ => z))
  (at level 100, z at level 200, only parsing, right associativity) : stream_scope.
Open Scope stream_scope.

(** [try { m } catch (e) { h e }] *)
Definition try_catch {A} (m : M A) (h : value -> M A) : M A := fun s =>
  match m s with
  | (Ok a, s1, t1) => (Ok a, s1, t1)
  | (Throw e, s1, t1) =>
      match h e s1 with
      | (r, s2, t2) => (r, s2, t1 ++ t2)
      end
  end.

(** ** The inherited EventEmitter *)

Fixpoint listeners_of (ev : event) (l : list (event * list handler)) : list handler :=
  match l with
  | [] => []
  | (e, hs) :: l' => if decide (e = ev) then hs else listeners_of ev l'
  end.

Fixpoint add_listener (ev : event) (h : handler) (l : list (event * list handler))
  : list (event * list handler) :=
  match l with
  | [] => [(ev, [h])]
  | (e, hs) :: l' =>
      if decide (e = ev) then (e, hs ++ [h]) :: l'
      else (e, hs) :: add_listener ev h l'
  end.

(** [this.listeners(ev)] *)
Definition listeners (ev : event) (s : stream) : list handler :=
  listeners_of ev (events s).

(** [this.eventNames()]: the own keys of the registry. *)
Definition eventNames (s : stream) : list event := ownKeys (events s).*1.

(** [on(event, handler)] *)
Definition on (ev : event) (h : handler) : M unit :=
  modify (fun s => set_events (add_listener ev h (events s)) s).

(** [this.emit(ev, arg)]: every handler currently registered for [ev] is
    called, in registration order. The boolean it returns is never used. *)
Definition emit (ev : event) (arg : value) : M unit := fun s =>
  (Ok tt, s, [AEmit ev arg (listeners ev s)]).

(** [this.removeAllListeners()] *)
Definition removeAllListeners : M unit :=
  modify (set_events []);; tell ARemoveAllListeners.

(** ** Transport handles *)

(** A pair as the factory hands it out. *)
Definition fresh_connection : connection :=
  {| destroyed := false; req_listeners := false; res_listeners := false |}.

(** [this.req.destroyed] for [this.req = c] *)
Definition req_destroyed (c : handle) (s : stream) : bool :=
  match connections s !! c with
  | Some k => destroyed k
  | None => false
  end.

(** An update in place of the pair [c]. *)
Definition alter_connection (f : connection -> connection) (c : handle) : M unit :=
  modify (fun s => set_connections (alter f c (connections s)) s).

(** [res.removeAllListeners()] *)
Definition res_removeAllListeners (c : handle) : M unit :=
  alter_connection (fun k => {| destroyed := destroyed k;
                                req_listeners := req_listeners k;
                                res_listeners := false |}) c;;
  tell (AResRemoveAllListeners c).

(** [req.removeAllListeners()] *)
Definition req_removeAllListeners (c : handle) : M unit :=
  alter_connection (fun k => {| destroyed := destroyed k;
                                req_listeners := false;
                                res_listeners := res_listeners k |}) c;;
  tell (AReqRemoveAllListeners c).

(** [req.destroy()] *)
Definition req_destroy (c : handle) : M unit :=
  alter_connection (fun k => {| destroyed := true;
                                req_listeners := req_listeners k;
                                res_listeners := res_listeners k |}) c;;
  tell (AReqDestroy c).

(** [req.on('error', errorHandler)] *)
Definition req_on (c : handle) : M unit :=
  alter_connection (fun k => {| destroyed := destroyed k;
                                req_listeners := true;
                                res_listeners := res_listeners k |}) c;;
  tell (AReqOn c).

(** [res.on('error', ..)], [res.on('close', ..)], [res.on('data', ..)] *)
Definition res_on (c : handle) : M unit :=
  alter_connection (fun k => {| destroyed := destroyed k;
                                req_listeners := req_listeners k;
                                res_listeners := true |}) c;;
  tell (AResOn c).

(** ** Timers *)

(** Node's [setTimeout] replaces a delay below 1 or above 2^31-1 by 1. *)
Definition timeout_delay (ms : Z) : Z :=
  if (ms <? 1) || (2147483647 <? ms) then 1 else ms.

(** The field a callback belongs to. *)
Definition timer_of (cb : callback) : timer :=
  match cb with
  | OnKeepAliveTimeout => KeepAliveTimeout
  | OnRetryTimeout _ => RetryTimeout
  end.

(** [setTimeout(cb, ms)]: a new timer is scheduled and its handle
    returned. *)
Definition setTimeout (cb : callback) (ms : Z) : M nat :=
  s ← get;
  modify (set_timeouts (timeouts s ++ [{| timeout_id := timeout_seq s;
                                           remaining := timeout_delay ms;
                                           callback_of := cb |}]));;
  modify (set_timeout_seq (S (timeout_seq s)));;
  tell (ASetTimeout (timer_of cb) ms);;
  ret (timeout_seq s).

(** [clearTimeout(h)]: the timer is unscheduled if it still is; [t] only
    labels the trace. *)
Definition clearTimeout (t : timer) (h : nat) : M unit :=
  modify (fun s => set_timeouts (filter (fun x => timeout_id x ≠ h) (timeouts s)) s);;
  tell (AClearTimeout t).

Definition unbindKeepAliveTimeout : M unit :=
  s ← get;
  match keepAliveTimeout s with
  | Some h =>
      clearTimeout KeepAliveTimeout h;;
      modify (set_keepAliveTimeout None)
  | None => ret tt
  end.

Definition unbindRetryTimeout : M unit :=
  s ← get;
  match retryTimeout s with
  | Some h =>
      clearTimeout RetryTimeout h;;
      modify (set_retryTimeout None)
  | None => ret tt
  end.

Definition unbindTimeouts : M unit :=
  unbindRetryTimeout;;
  unbindKeepAliveTimeout.

Definition resetKeepAliveTimeout : M unit :=
  unbindKeepAliveTimeout;;
  s ← get;
  match keepAliveTimeoutMs s with
  | Infinity => ret tt
  | Num ms =>
      h ← setTimeout OnKeepAliveTimeout ms;
      modify (set_keepAliveTimeout (Some h))
  end.

(** ** Teardown *)

Definition closeWithoutEmit : M unit :=
  unbindTimeouts;;
  s ← get;
  match res s with
  | Some r => res_removeAllListeners r
  | None => ret tt
  end;;
  match req s with
  | Some q => req_removeAllListeners q;; req_destroy q
  | None => ret tt
  end.

Definition close : M unit :=
  emit ConnectionClosed VUndefined;;
  closeWithoutEmit.

Definition destroy : M unit :=
  removeAllListeners;;
  close.

(** ** Events from the parser ([initEventsFromParser]) *)

(** The [ParsedData] listener. *)
Definition onParsedData (eventData : Payload) : M unit :=
  s ← get;
  if match payloadIsError (requestData s) with
     | Some isError => isError eventData
     | None => false
     end
  then
    emit DataError (VPayload eventData);;
    emit Error (VStreamError DataError (VPayload eventData))
  else
    emit Data (VPayload eventData).

(** The [ParseError] listener. *)
Definition onParseError (error : string) : M unit :=
  emit TweetParseError (VError error);;
  emit Error (VStreamError TweetParseError (VError error)).

Definition parser_listener (e : EStreamParserEvent) : M unit :=
  match e with
  | ParsedData eventData => onParsedData eventData
  | ParseError error => onParseError error
  end.

Fixpoint parser_emits (es : list EStreamParserEvent) : M unit :=
  match es with
  | [] => ret tt
  | e :: es' => parser_listener e;; parser_emits es'
  end.

(** [this.parser.push(chunk)]: the parser consumes the chunk and the
    stream's two listeners run for each event it emits meanwhile. *)
Definition push (chunk : string) : M unit :=
  s ← get;
  tell (AParserPush chunk);;
  modify (set_parser (parser_push chunk (parser s)).1);;
  parser_emits (parser_push chunk (parser s)).2.

(** [this.parser.reset()] *)
Definition reset : M unit :=
  modify (fun s => set_parser (parser_reset (parser s)) s);;
  tell AParserReset.

(** ** Events from the transport ([initEventsFromRequest]) *)

(** The keep-alive payload ["\r\n"]. *)
Definition CRLF : string :=
  String (Ascii.ascii_of_nat 13) (String (Ascii.ascii_of_nat 10) EmptyString).

(** The [res] ['data'] listener. *)
Definition onData (chunk : string) : M unit :=
  resetKeepAliveTimeout;;
  if decide (chunk = CRLF) then emit DataKeepAlive VUndefined
  else push chunk.

Definition initEventsFromRequest : M unit :=
  s ← get;
  match req s, res s with
  | Some q, Some r =>
      req_on q;;
      res_on r;;
      resetKeepAliveTimeout
  | _, _ =>
      throw (VError "TweetStream error: You cannot init TweetStream without a request and response object.")
  end.

(** ** Reconnection *)

Definition safeReconnectRetries (s : stream) : Z :=
  match autoReconnectRetries s with
  | Infinity => 9999999999
  | Num n => n
  end.

(** [reconnect()] up to its [await]: the connection factory has been
    called and the rest of the body waits in [pending] on behalf of [k]. *)
Definition reconnect (k : caller) : M unit :=
  s ← get;
  initialConnection ←
    match req s with
    | Some q => when (negb (req_destroyed q s)) closeWithoutEmit;; ret false
    | None => ret true
    end;
  tell AMakeRequest;;
  modify (fun s => set_pending (pending s ++ [{| initialConnection := initialConnection;
                                                awaited_by := k |}]) s).

(** [reconnect()] after its [await], once the factory has produced a new
    request/response pair. *)
Definition reconnect_resumed (initialConnection : bool) : M unit :=
  s ← get;
  modify (set_connections (connections s ++ [fresh_connection]));;
  modify (set_req_res (Some (length (connections s))) (Some (length (connections s))));;
  emit (if initialConnection then Connected else Reconnected) VUndefined;;
  reset;;
  initEventsFromRequest.

Definition connect (options : IConnectTweetStreamParams) : M unit :=
  match opt_autoReconnect options with
  | Some v => modify (set_autoReconnect v)
  | None => ret tt
  end;;
  match opt_autoReconnectRetries options with
  | Some v => modify (set_autoReconnectRetries v)
  | None => ret tt
  end;;
  match opt_keepAliveTimeout options with
  | Some v => modify (set_keepAliveTimeoutMs v)
  | None => ret tt
  end;;
  reconnect FromOutside.

(** [onConnectionError(retries = this.safeReconnectRetries)] up to the
    [await] in its [try] block; [None] is a call without argument. *)
Definition onConnectionError (arg : option Z) : M unit :=
  s ← get;
  let retries := default (safeReconnectRetries s) arg in
  unbindTimeouts;;
  match req s with
  | Some q => when (negb (req_destroyed q s)) closeWithoutEmit
  | None => ret tt
  end;;
  if negb (autoReconnect s) then
    emit ConnectionClosed VUndefined
  else if retries <=? 0 then
    emit ReconnectLimitExceeded VUndefined;;
    emit ConnectionClosed VUndefined
  else
    emit ReconnectAttempt (VNumber (safeReconnectRetries s - retries));;
    reconnect (FromRetry retries).

(** [Math.min((tryOccurence ** 2) * 1000, 25000)] *)
Definition nextRetry (tryOccurence : Z) : Z :=
  Z.min ((tryOccurence ^ 2) * 1000) 25000.

Definition makeAutoReconnectRetry (retries : Z) : M unit :=
  s ← get;
  let tryOccurence := (safeReconnectRetries s - retries) + 1 in
  h ← setTimeout (OnRetryTimeout retries) (nextRetry tryOccurence);
  modify (set_retryTimeout (Some h)).

(** The [catch] block of [onConnectionError(retries)]. The number of
    attempts is the integer difference and appears in the message as a
    decimal numeral, which is what the template literal gives for safe
    integers. *)
Definition onConnectionError_catch (retries : Z) : M unit :=
  s ← get;
  emit ReconnectError (VNumber (safeReconnectRetries s - retries));;
  emit Error (VStreamError ReconnectError
    (VError ("Reconnect error - " +:+ pretty (safeReconnectRetries s - retries)
             +:+ " attempts made yet.")));;
  makeAutoReconnectRetry retries.

(** The factory's promise settles for the suspended call [p]: [None] when
    it resolves, [Some e] when it rejects with [e]. *)
Definition resume (p : suspended) (rejection : option value) : M unit :=
  let rest :=
    match rejection with
    | Some e => throw e
    | None => reconnect_resumed (initialConnection p)
    end in
  match awaited_by p with
  | FromOutside => try_catch rest (fun e => tell (ARejected e))
  | FromRetry retries => try_catch rest (fun _ => onConnectionError_catch retries)
  end.

(** The listener bound to [req] ['error'], [res] ['error'] and, with a
    fixed error, to [res] ['close']. *)
Definition errorHandler (err : string) : M unit :=
  emit ConnectionError (VError err);;
  emit Error (VStreamError ConnectionError (VError err));;
  onConnectionError None.

Definition onKeepAliveTimeout : M unit :=
  emit ConnectionLost VUndefined;;
  onConnectionError None.

(** ** The constructor *)

Definition initial (data : TRequestFullStreamData) (handles : bool) : stream :=
  {| autoReconnect := false;
     autoReconnectRetries := Num 5;
     keepAliveTimeoutMs := Num (1000 * 120);
     retryTimeout := None;
     keepAliveTimeout := None;
     parser := parser_new;
     req := if handles then Some 0%nat else None;
     res := if handles then Some 0%nat else None;
     requestData := data;
     events := [];
     connections := if handles then [fresh_connection] else [];
     pending := [];
     timeouts := [];
     timeout_seq := 0 |}.

(** [new TweetStream(requestData, req, res)]; [handles] tells whether
    [req] and [res] are given. *)
Definition new_TweetStream (data : TRequestFullStreamData) (handles : bool)
  : result unit * stream * list action :=
  when handles initEventsFromRequest (initial data handles).

(** ** What can happen to a stream *)

(** Calls from the consumer, events of the transport handles, the passing
    of time and the settling of a pending factory promise. *)
Inductive input :=
| Call_connect (options : IConnectTweetStreamParams)
| Call_reconnect
| Call_close
| Call_destroy
| Call_on (ev : event) (h : handler)
| ReqError (c : handle) (err : string)
| ResError (c : handle) (err : string)
| ResClose (c : handle)
| ResData (c : handle) (chunk : string)
| ReqDestroyed (c : handle)
| Settle (k : nat) (rejection : option value)
| Elapse (ms : Z).

Definition has_req_listeners (c : handle) (s : stream) : bool :=
  match connections s !! c with
  | Some k => req_listeners k
  | None => false
  end.

Definition has_res_listeners (c : handle) (s : stream) : bool :=
  match connections s !! c with
  | Some k => res_listeners k
  | None => false
  end.

(** The scheduled timer that expires first; among timers with the same
    deadline, the one set first. *)
Definition earliest (l : list timeout) : option timeout :=
  foldr (fun t acc =>
           match acc with
           | Some u => if remaining t <=? remaining u then Some t else Some u
           | None => Some t
           end) None l.

(** [ms] milliseconds go by for every scheduled timer. *)
Definition pass (ms : Z) (s : stream) : stream :=
  set_timeouts ((fun t => {| timeout_id := timeout_id t;
                            remaining := remaining t - ms;
                            callback_of := callback_of t |}) <$> timeouts s) s.

(** The timer has expired: it is no longer scheduled. *)
Definition expire (t : timeout) (s : stream) : stream :=
  set_timeouts (filter (fun x => timeout_id x ≠ timeout_id t) (timeouts s)) s.

(** A timer's callback runs. For the retry timer [retries - 1] is the
    integer difference, which is the number the closure computes as long
    as [retries] is a safe integer. *)
Definition call (cb : callback) : M unit :=
  match cb with
  | OnKeepAliveTimeout => onKeepAliveTimeout
  | OnRetryTimeout retries => onConnectionError (Some (retries - 1))
  end.

(** [ms] milliseconds pass: as long as a scheduled timer is due within
    them, the earliest one expires and its callback runs. [fuel] bounds
    the number of timers that expire. *)
Fixpoint elapse_upto (fuel : nat) (ms : Z) : M unit :=
  match fuel with
  | O => modify (pass ms)
  | S fuel' =>
      s ← get;
      match earliest (timeouts s) with
      | Some t =>
          if remaining t <=? ms then
            modify (pass (remaining t));;
            modify (expire t);;
            call (callback_of t);;
            elapse_upto fuel' (ms - remaining t)
          else modify (pass ms)
      | None => ret tt
      end
  end.

(** Neither callback schedules a timer before it returns
    ([call_schedules_nothing]), so no more timers can expire than are
    scheduled at the start. *)
Definition elapse (ms : Z) : M unit :=
  s ← get;
  elapse_upto (length (timeouts s)) ms.

(** The stream's reaction to one input. A transport event only reaches
    the stream through a listener it has attached. *)
Definition step (i : input) : M unit :=
  match i with
  | Call_connect options => connect options
  | Call_reconnect => reconnect FromOutside
  | Call_close => close
  | Call_destroy => destroy
  | Call_on ev h => on ev h
  | ReqError c err =>
      s ← get; when (has_req_listeners c s) (errorHandler err)
  | ResError c err =>
      s ← get; when (has_res_listeners c s) (errorHandler err)
  | ResClose c =>
      s ← get; when (has_res_listeners c s) (errorHandler "Connection closed by Twitter.")
  | ResData c chunk =>
      s ← get; when (has_res_listeners c s) (onData chunk)
  | ReqDestroyed c =>
      alter_connection (fun k => {| destroyed := true;
                                    req_listeners := req_listeners k;
                                    res_listeners := res_listeners k |}) c
  | Settle k rejection =>
      s ← get;
      match pending s !! k with
      | Some p => modify (set_pending (delete k (pending s)));; resume p rejection
      | None => ret tt
      end
  | Elapse ms => elapse ms
  end.

(** Inputs one after the other. *)
Fixpoint run (inputs : list input) : M unit :=
  match inputs with
  | [] => ret tt
  | i :: inputs' => step i;; run inputs'
  end.

(** State and trace of a computation. *)
Definition state_of {A} (x : result A * stream * list action) : stream := x.1.2.
Definition trace_of {A} (x : result A * stream * list action) : list action := x.2.

(** ** Observations on traces and inputs *)

(** The names of the events emitted, in order. *)
Definition emitted (t : list action) : list event :=
  omap (fun a => match a with AEmit ev _ _ => Some ev | _ => None end) t.

(** The attempt numbers announced by [ReconnectAttempt], in order. *)
Definition attempts (t : list action) : list Z :=
  omap (fun a => match a with
                 | AEmit ReconnectAttempt (VNumber n) _ => Some n
                 | _ => None
                 end) t.

(** The timers armed, with the delay asked for. *)
Definition timeouts_set (t : list action) : list (timer * Z) :=
  omap (fun a => match a with ASetTimeout k ms => Some (k, ms) | _ => None end) t.

(** How often the connection factory is called. *)
Definition requests (t : list action) : nat :=
  length (omap (fun a => match a with AMakeRequest => Some tt | _ => None end) t).

(** The subscribers an emission of [ev] reached. *)
Definition deliveries (ev : event) (t : list action) : list handler :=
  t ≫= (fun a => match a with
                 | AEmit ev' _ hs => if decide (ev' = ev) then hs else []
                 | _ => []
                 end).

(** What [clearTimeout] on the handle in a field leaves scheduled. *)
Definition cleared (h : option nat) (l : list timeout) : list timeout :=
  match h with
  | Some i => filter (fun x => timeout_id x ≠ i) l
  | None => l
  end.

(** Every scheduled timer is one the stream holds the handle of. *)
Definition timeouts_tracked (s : stream) : bool :=
  forallb (fun t => bool_decide (retryTimeout s = Some (timeout_id t)
                                 ∨ keepAliveTimeout s = Some (timeout_id t)))
          (timeouts s).

(** [i] is a connection-failed signal in state [s]: an ['error'] on a
    request or response, or a ['close'] on a response, that still carries
    the stream's listeners, or time passing until the watchdog, the first
    of the stream's timers to be due, expires. *)
Definition connection_failed (i : input) (s : stream) : bool :=
  match i with
  | ReqError c _ => has_req_listeners c s
  | ResError c _ | ResClose c => has_res_listeners c s
  | Elapse ms =>
      timeouts_tracked s &&
      match earliest (timeouts s) with
      | Some t =>
          match callback_of t with
          | OnKeepAliveTimeout => remaining t <=? ms
          | OnRetryTimeout _ => false
          end
      | None => false
      end
  | _ => false
  end.

(** What a connection-failed signal emits before [onConnectionError]. *)
Definition announced (i : input) : list event :=
  match i with
  | Elapse _ => [ConnectionLost]
  | _ => [ConnectionError; Error]
  end.

(** [n] reconnect attempts fail in a row: each time the factory promise
    in flight (at index [k] of [pending]) rejects with [e], then the
    backoff delay passes. *)
Fixpoint failed_attempts (n : nat) (tryOccurence : Z) (k : nat) (e : value) : list input :=
  match n with
  | O => []
  | S n' =>
      Settle k (Some e) :: Elapse (nextRetry tryOccurence)
        :: failed_attempts n' (tryOccurence + 1) k e
  end.

(** The events of [n] failed attempts and the numbers they announce. *)
Definition failed_attempt_events (n : nat) : list event :=
  mjoin (replicate n [ReconnectAttempt; ReconnectError; Error]).

Fixpoint attempt_numbers (from : Z) (n : nat) : list Z :=
  match n with
  | O => []
  | S n' => from :: attempt_numbers (from + 1) n'
  end.

(** How often [ev] occurs in a list of event names. *)
Definition occurrences (ev : event) (l : list event) : nat :=
  length (filter (fun e => e = ev) l).

(** [m] returns normally from every state. *)
Definition returns {A} (m : M A) : Prop :=
  forall s, exists a, (m s).1.1 = Ok a.

(** What rearming the watchdog leaves in the trace and in the state: a
    pending deadline is cleared and, unless the watchdog is disabled, a
    new timer is scheduled a full interval ahead and its handle kept. *)
Definition watchdog_rearmed (s : stream) : list action :=
  match keepAliveTimeout s with
  | Some _ => [AClearTimeout KeepAliveTimeout]
  | None => []
  end ++
  match keepAliveTimeoutMs s with
  | Num ms => [ASetTimeout KeepAliveTimeout ms]
  | Infinity => []
  end.

Definition watchdog_handle (s : stream) : option nat :=
  match keepAliveTimeoutMs s with
  | Num _ => Some (timeout_seq s)
  | Infinity => None
  end.

Definition watchdog_timeouts (s : stream) : list timeout :=
  cleared (keepAliveTimeout s) (timeouts s) ++
  match keepAliveTimeoutMs s with
  | Num ms => [{| timeout_id := timeout_seq s;
                  remaining := timeout_delay ms;
                  callback_of := OnKeepAliveTimeout |}]
  | Infinity => []
  end.

(** The verdict of the external error predicate, if there is one. *)
Definition classified_as_error (s : stream) (eventData : Payload) : bool :=
  match payloadIsError (requestData s) with
  | Some isError => isError eventData
  | None => false
  end.

(** What the event taxonomy asks the stream to emit for one parser event:
    [DataError] then [Error] for a message classified as erroneous, [Data]
    for any other message, [TweetParseError] then [Error] for a decode
    failure. *)
Definition relayed (s : stream) (e : EStreamParserEvent) : list action :=
  match e with
  | ParsedData eventData =>
      if classified_as_error s eventData then
        [AEmit DataError (VPayload eventData) (listeners DataError s);
         AEmit Error (VStreamError DataError (VPayload eventData)) (listeners Error s)]
      else
        [AEmit Data (VPayload eventData) (listeners Data s)]
  | ParseError error =>
      [AEmit TweetParseError (VError error) (listeners TweetParseError s);
       AEmit Error (VStreamError TweetParseError (VError error)) (listeners Error s)]
  end.

(** The silent teardown of a session that is still open: timers cleared,
    listeners detached from response and request, request destroyed. *)
Definition silent_teardown (s : stream) : list action :=
  match req s with
  | Some q =>
      if req_destroyed q s then []
      else
        match retryTimeout s with
        | Some _ => [AClearTimeout RetryTimeout]
        | None => []
        end ++
        match keepAliveTimeout s with
        | Some _ => [AClearTimeout KeepAliveTimeout]
        | None => []
        end ++
        match res s with
        | Some r => [AResRemoveAllListeners r]
        | None => []
        end ++
        [AReqRemoveAllListeners q; AReqDestroy q]
  | None => []
  end.

(** What handling a connection failure with [retries] left amounts to,
    from state [s] to outcome [x], once [announcement] has been emitted:
    both handles dropped and their timers unscheduled, no timer set, the
    configuration and the registry kept; then, without [autoReconnect],
    the close is announced; with no retry left, the exhausted budget and
    the close; otherwise attempt [safeReconnectRetries - retries], with a
    [reconnect()] left in flight that remembers [retries]. *)
Definition handled (announcement : list event) (retries : Z) (s : stream)
    (x : result unit * stream * list action) : Prop :=
  retryTimeout (state_of x) = None
  /\ keepAliveTimeout (state_of x) = None
  /\ timeouts (state_of x)
     = cleared (keepAliveTimeout s) (cleared (retryTimeout s) (timeouts s))
  /\ timeouts_set (trace_of x) = []
  /\ autoReconnect (state_of x) = autoReconnect s
  /\ autoReconnectRetries (state_of x) = autoReconnectRetries s
  /\ events (state_of x) = events s
  /\ if negb (autoReconnect s) then
      emitted (trace_of x) = announcement ++ [ConnectionClosed]
      /\ attempts (trace_of x) = []
      /\ requests (trace_of x) = 0%nat
      /\ pending (state_of x) = pending s
    else if retries <=? 0 then
      emitted (trace_of x) = announcement ++ [ReconnectLimitExceeded; ConnectionClosed]
      /\ attempts (trace_of x) = []
      /\ requests (trace_of x) = 0%nat
      /\ pending (state_of x) = pending s
    else
      emitted (trace_of x) = announcement ++ [ReconnectAttempt]
      /\ attempts (trace_of x) = [safeReconnectRetries s - retries]
      /\ requests (trace_of x) = 1%nat
      /\ pending (state_of x)
         = pending s ++ [{| initialConnection := bool_decide (req s = None);
                            awaited_by := FromRetry retries |}].

(** The reading of the retry budget as a counter kept for the stream's
    lifetime: when an automatic retry that follows earlier attempts
    ([safeReconnectRetries - retries > 0] of them) succeeds, a later
    failure of the new connection does not start again at attempt 0. *)
Definition budget_survives_reconnect : Prop :=
  forall (s : stream) (k : nat) (b : bool) (retries : Z) (c : handle),
    autoReconnect s = true ->
    pending s !! k = Some {| initialConnection := b; awaited_by := FromRetry retries |} ->
    0 < safeReconnectRetries s - retries ->
    has_res_listeners c (state_of (step (Settle k None) s)) = true ->
    ~ In 0 (attempts (trace_of (step (ResClose c) (state_of (step (Settle k None) s))))).

(** ** Cloning *)

(** Modelled from the spec: [RequestHandlerHelper.makeRequestAsStream]
    (in [../client-mixins/request-handler.helper], not part of the sources
    at hand) creates "an independent connection with the same
    configuration": a new instance built from the same request data and
    bound to a request/response pair of its own. *)
Definition makeRequestAsStream (data : TRequestFullStreamData) : stream :=
  state_of (new_TweetStream data true).

(** What the two loops of [clone()], over [this.eventNames()] and
    [this.listeners(listener)], make of the new stream. *)
Definition clone_listeners (this newStream : stream) : stream :=
  foldl (fun ns listener =>
           foldl (fun ns' callback => state_of (on listener callback ns'))
                 ns (listeners listener this))
        newStream (eventNames this).

End Stream.

Arguments value : clear implicits.
Arguments result : clear implicits.
Arguments Ok {Payload A} a.
Arguments Throw {Payload A} e.
Arguments action : clear implicits.
Arguments EStreamParserEvent : clear implicits.
Arguments TRequestFullStreamData : clear implicits.
Arguments TweetStreamParser : clear implicits.
Arguments stream : clear implicits.
Arguments input : clear implicits.

(** ** Several instances *)

(** The live instances, by identity. *)
Abbreviation world Payload Parser := (gmap nat (stream Payload Parser)).

Section World.
Context {Payload Parser : Type} `{TweetStreamParser Payload Parser}.

(** Something happens to instance [i]. *)
Definition w_step (i : nat) (inp : input Payload) (w : world Payload Parser)
  : world Payload Parser * list (nat * action Payload) :=
  match w !! i with
  | Some s => (<[i := state_of (step inp s)]> w, (fun a => (i, a)) <$> trace_of (step inp s))
  | None => (w, [])
  end.

(** [new]: the instance gets an identity of its own. *)
Definition w_new (s : stream Payload Parser) (w : world Payload Parser)
  : nat * world Payload Parser :=
  (fresh (dom w), <[fresh (dom w) := s]> w).

(** [w[i].eventNames()] *)
Definition w_eventNames (i : nat) (w : world Payload Parser) : list event :=
  match w !! i with
  | Some s => eventNames s
  | None => []
  end.

(** [w[i].listeners(ev)] *)
Definition w_listeners (i : nat) (ev : event) (w : world Payload Parser) : list handler :=
  match w !! i with
  | Some s => listeners ev s
  | None => []
  end.

(** [w[i].on(ev, h)] *)
Definition w_on (i : nat) (ev : event) (h : handler) (w : world Payload Parser)
  : world Payload Parser :=
  (w_step i (Call_on ev h) w).1.

(** [await w[this].clone()], once [makeRequestAsStream()] has settled: a
    rejection is passed on to the caller; otherwise the instance it made
    is given, one by one, the callbacks [this] has for each of its event
    names, and returned. *)
Definition clone (this : nat) (rejection : option (value Payload))
    (w : world Payload Parser) : option (result Payload nat * world Payload Parser) :=
  match w !! this with
  | Some s =>
      match rejection with
      | Some e => Some (Throw e, w)
      | None =>
          let newStream := (w_new (makeRequestAsStream (requestData s)) w).1 in
          let w1 := (w_new (makeRequestAsStream (requestData s)) w).2 in
          let listenerNames := w_eventNames this w1 in
          Some (Ok newStream,
                foldl (fun w' listener =>
                         foldl (fun w'' callback => w_on newStream listener callback w'')
                               w' (w_listeners this listener w'))
                      w1 listenerNames)
      end
  | None => None
  end.

End World.

(** ** A parser for closed examples *)

(** Modelled from the spec: the external incremental decoder
    ([./TweetStreamParser], not part of the sources at hand) "turns raw
    byte chunks into discrete application messages and reports decode
    failures without terminating the stream". This stand-in buffers text,
    cuts it at every ["\\r\\n"], reports a non-empty piece that starts with
    an opening brace as a message and any other non-empty piece as a decode
    failure, and keeps the unfinished rest; [reset] drops the rest. *)
Module LineParser.

Fixpoint split (s piece : string) : list string * string :=
  match s with
  | EmptyString => ([], piece)
  | String a s' =>
      match s' with
      | String b s'' =>
          if decide (a = Ascii.ascii_of_nat 13 ∧ b = Ascii.ascii_of_nat 10)
          then (piece :: (split s'' EmptyString).1, (split s'' EmptyString).2)
          else ((split s' (piece +:+ String a EmptyString)).1,
                (split s' (piece +:+ String a EmptyString)).2)
      | EmptyString => ([], piece +:+ String a EmptyString)
      end
  end.

Definition decode (piece : string) : list (EStreamParserEvent string) :=
  match piece with
  | EmptyString => []
  | String a _ =>
      if decide (a = Ascii.ascii_of_nat 123) then [ParsedData piece]
      else [ParseError ("Unexpected token in " +:+ piece)]
  end.

Definition push (chunk currentMessage : string)
  : string * list (EStreamParserEvent string) :=
  ((split (currentMessage +:+ chunk) EmptyString).2,
   (split (currentMessage +:+ chunk) EmptyString).1 ≫= decode).

#[global] Instance parser : TweetStreamParser string string :=
  {| parser_new := EmptyString;
     parser_push := push;
     parser_reset := fun _ => EmptyString |}.

End LineParser.

(** ** Streams for closed examples *)

(** A freshly constructed stream bound to a request/response pair, with
    the stand-in parser and an error predicate that flags messages
    starting with an opening brace followed by [e]. *)
Definition example_data : TRequestFullStreamData string :=
  {| payloadIsError := Some (String.prefix "{e") |}.

Definition bound_stream : stream string string :=
  state_of (new_TweetStream example_data true).


Definition retry_twice : IConnectTweetStreamParams :=
  {| opt_autoReconnect := Some true;
     opt_autoReconnectRetries := Some (Num 2);
     opt_keepAliveTimeout := Some (Num 1000) |}.

(** An unbound stream after [connect({autoReconnect: true,
    autoReconnectRetries: 2, keepAliveTimeout: 1000})] has resolved. *)
Definition retrying_stream : stream string string :=
  state_of (run [Call_connect retry_twice; Settle 0 None] (initial example_data false)).

Definition refused : value string := VError "connect ECONNREFUSED".

(** [retrying_stream] after its connection closed and the first
    reconnect attempt is in flight. *)
Definition first_attempt_in_flight : stream string string :=
  state_of (step (ResClose 0) retrying_stream).

(** The same stream after that attempt failed and the second one, started
    by the retry timer, is in flight. *)
Definition second_attempt_in_flight : stream string string :=
  state_of (run [Settle 0 (Some refused); Elapse 1000] first_attempt_in_flight).

(** The second attempt succeeded: the stream is connected again. *)
Definition reconnected_stream : stream string string :=
  state_of (step (Settle 0 None) second_attempt_in_flight).

(** Two retry chains at once: the request is destroyed under the stream,
    its error and the close of the response both reach the stream, and
    both reconnect attempts fail. *)
Definition overlapping_chains : list (input string) :=
  [ReqDestroyed 0; ReqError 0 "socket hang up"; ResClose 0;
   Settle 0 (Some refused); Settle 0 (Some refused)].

Definition retry_once : IConnectTweetStreamParams :=
  {| opt_autoReconnect := Some true;
     opt_autoReconnectRetries := Some (Num 1);
     opt_keepAliveTimeout := Some (Num 1000) |}.

(** An unbound stream after [connect({autoReconnect: true,
    autoReconnectRetries: 1, keepAliveTimeout: 1000})] has resolved. *)
Definition retrying_once_stream : stream string string :=
  state_of (run [Call_connect retry_once; Settle 0 None] (initial example_data false)).

(** The request is destroyed under the stream and emits its error; the
    reconnect attempt fails and the backoff delay passes. *)
Definition exhausting_chain : list (input string) :=
  [ReqDestroyed 0; ReqError 0 "socket hang up"; Settle 0 (Some refused); Elapse 1000].

(** The response of the same pair closes; again the reconnect attempt
    fails and the backoff delay passes. *)
Definition late_close : list (input string) :=
  [ResClose 0; Settle 0 (Some refused); Elapse 1000].

(** A stream with three subscriptions, two of them for the same event. *)
Definition subscribed_stream : stream string string :=
  state_of (run [Call_on Data 1%nat; Call_on ConnectionClosed 2%nat; Call_on Data 3%nat]
              bound_stream).

Definition one_stream : gmap nat (stream string string) := {[ 7%nat := subscribed_stream ]}.

(** ** Further observations *)

Section Observations.
Context {Payload Parser : Type} `{TweetStreamParser Payload Parser}.

(** The stream once [connect(options)] has stored the options that are
    defined. *)
Definition configured (options : IConnectTweetStreamParams) (s : stream Payload Parser)
  : stream Payload Parser :=
  set_keepAliveTimeoutMs (default (keepAliveTimeoutMs s) (opt_keepAliveTimeout options))
    (set_autoReconnectRetries
       (default (autoReconnectRetries s) (opt_autoReconnectRetries options))
       (set_autoReconnect (default (autoReconnect s) (opt_autoReconnect options)) s)).

(** [i] makes [makeAutoReconnectRetry] store a retry handle over one that
    is still there: a reconnect attempt awaited by [onConnectionError] is
    rejected while [retryTimeout] is set. *)
Definition overwrites_retry_handle (i : input Payload) (s : stream Payload Parser) : bool :=
  match i with
  | Settle k (Some _) =>
      match pending s !! k with
      | Some p =>
          match awaited_by p, retryTimeout s with
          | FromRetry _, Some _ => true
          | _, _ => false
          end
      | None => false
      end
  | _ => false
  end.

(** No input of the run overwrites a retry handle. *)
Fixpoint keeps_retry_handles (inputs : list (input Payload)) (s : stream Payload Parser)
  : bool :=
  match inputs with
  | [] => true
  | i :: inputs' =>
      negb (overwrites_retry_handle i s)
      && keeps_retry_handles inputs' (state_of (step i s))
  end.

(** What follows the announcement of a connection failure handled with
    the full budget. *)
Definition outcome (s : stream Payload Parser) : list event :=
  if negb (autoReconnect s) then [ConnectionClosed]
  else if safeReconnectRetries s <=? 0 then [ReconnectLimitExceeded; ConnectionClosed]
  else [ReconnectAttempt].

(** [i] is an event of the request [q] or of the response [r]. *)
Definition of_session (q r : handle) (i : input Payload) : bool :=
  match i with
  | ReqError c _ => bool_decide (c = q)
  | ResError c _ | ResClose c | ResData c _ => bool_decide (c = r)
  | _ => false
  end.

(** [i] is a call that changes the registry of handlers. *)
Definition subscribes (i : input Payload) : bool :=
  match i with
  | Call_on _ _ | Call_destroy => true
  | _ => false
  end.

(** [i] is a call that changes the settings. *)
Definition configures (i : input Payload) : bool :=
  match i with
  | Call_connect _ => true
  | _ => false
  end.

(** [s'] has the settings of [s]. *)
Definition same_settings (s s' : stream Payload Parser) : Prop :=
  autoReconnect s' = autoReconnect s
  /\ autoReconnectRetries s' = autoReconnectRetries s
  /\ keepAliveTimeoutMs s' = keepAliveTimeoutMs s.

End Observations.

(** ** More streams for closed examples *)

(** The connection of [retrying_stream] closes, the first reconnect
    attempt fails, the second succeeds. *)
Definition recovering : list (input string) :=
  [ResClose 0; Settle 0 (Some refused); Elapse 1000; Settle 0 None].

(** [retrying_stream] with its request destroyed under it. *)
Definition destroyed_under : stream string string :=
  state_of (step (ReqDestroyed 0) retrying_stream).

(** [first_attempt_in_flight] after the attempt failed: the stream waits
    for its retry timer. *)
Definition waiting_for_retry : stream string string :=
  state_of (step (Settle 0 (Some refused)) first_attempt_in_flight).

Definition no_retry : IConnectTweetStreamParams :=
  {| opt_autoReconnect := Some true;
     opt_autoReconnectRetries := Some (Num 0);
     opt_keepAliveTimeout := None |}.

(** An unbound stream after [connect({autoReconnect: true,
    autoReconnectRetries: 0})] has resolved. *)
Definition impatient_stream : stream string string :=
  state_of (run [Call_connect no_retry; Settle 0 None] (initial example_data false)).

Definition unwatched : IConnectTweetStreamParams :=
  {| opt_autoReconnect := None;
     opt_autoReconnectRetries := None;
     opt_keepAliveTimeout := Some Infinity |}.

(** An unbound stream after [connect({keepAliveTimeout: 'disable'})] has
    resolved. *)
Definition unwatched_stream : stream string string :=
  state_of (run [Call_connect unwatched; Settle 0 None] (initial example_data false)).

(** Two [reconnect()] calls in flight on [bound_stream], the first of
    which has resolved. *)
Definition overlapping_reconnects : stream string string :=
  state_of (run [Call_reconnect; Call_reconnect; Settle 0 None] bound_stream).

(** * Properties *)

Section Properties.
Context {Payload Parser : Type} `{TweetStreamParser Payload Parser}.
Implicit Types (s : stream Payload Parser) (i : input Payload) (tr : list (action Payload)).

(** Unfolds the methods down to the state they return and the trace they
    leave. *)
Ltac methods :=
  cbv [state_of trace_of step call onKeepAliveTimeout
       errorHandler onConnectionError onConnectionError_catch makeAutoReconnectRetry
       resume reconnect reconnect_resumed connect initEventsFromRequest onData
       close destroy closeWithoutEmit unbindTimeouts unbindRetryTimeout
       unbindKeepAliveTimeout resetKeepAliveTimeout setTimeout clearTimeout
       removeAllListeners on emit reset
       res_removeAllListeners req_removeAllListeners req_destroy req_on res_on
       alter_connection try_catch throw bind ret get modify tell when
       has_req_listeners has_res_listeners
       safeReconnectRetries default].

(** Case analysis on the tests a method makes on values the proof does
    not know. *)
Ltac branches :=
  repeat (first
    [ match goal with
      | |- context [req_destroyed ?c ?s] => destruct (req_destroyed c s)
      end
    | match goal with
      | |- context [?a <=? ?b] => destruct (a <=? b) eqn:?
      end ]; cbn).

(** ** Frame lemmas *)

(** [closeWithoutEmit] is silent, drops both handles and unschedules their
    timers, asks for no connection and leaves configuration, registry,
    parser and suspended calls alone. *)
Lemma closeWithoutEmit_silent s :
  emitted (trace_of (closeWithoutEmit s)) = []
  ∧ timeouts_set (trace_of (closeWithoutEmit s)) = []
  ∧ requests (trace_of (closeWithoutEmit s)) = 0%nat
  ∧ retryTimeout (state_of (closeWithoutEmit s)) = None
  ∧ keepAliveTimeout (state_of (closeWithoutEmit s)) = None
  ∧ timeouts (state_of (closeWithoutEmit s))
    = cleared (keepAliveTimeout s) (cleared (retryTimeout s) (timeouts s))
  ∧ pending (state_of (closeWithoutEmit s)) = pending s
  ∧ events (state_of (closeWithoutEmit s)) = events s.
Proof.
  destruct s as [ar arr kam [?|] [?|] p [q|] [r|] rd evs cs pd ts n];
    methods; cbn; done.
Qed.

(** What [onConnectionError] does, by case. *)
Lemma onConnectionError_cases s arg :
  handled [] (default (safeReconnectRetries s) arg) s (onConnectionError arg s).
Proof.
  unfold handled.
  destruct s as [[] arr kam [?|] [?|] p [q|] [r|] rd evs cs pd ts n];
    methods; cbn; branches; done.
Qed.

(** ** No method throws *)

Local Abbreviation returns := (@returns Payload Parser _) (only parsing).

Lemma returns_ret {A} (a : A) : returns (ret a).
Proof. intros s. by exists a. Qed.

Lemma returns_get : returns get.
Proof. intros s. by exists s. Qed.

Lemma returns_modify f : returns (modify f).
Proof. intros s. by exists tt. Qed.

Lemma returns_tell a : returns (tell a).
Proof. intros s. by exists tt. Qed.

Lemma returns_emit ev arg : returns (emit ev arg).
Proof. intros s. by exists tt. Qed.

Lemma returns_bind {A B} (m : @M Payload Parser A) (k : A → @M Payload Parser B) :
  returns m → (∀ a, returns (k a)) → returns (bind m k).
Proof.
  intros Hm Hk s. unfold bind.
  destruct (Hm s) as [a Ha]. destruct (m s) as [[r s1] t1]. simpl in Ha. subst r.
  destruct (Hk a s1) as [b Hb]. destruct (k a s1) as [[r s2] t2]. by exists b.
Qed.

Lemma returns_when b (m : @M Payload Parser unit) : returns m → returns (when b m).
Proof. destruct b; [done | intros _; apply returns_ret]. Qed.

Lemma returns_try_catch {A} (m : @M Payload Parser A) h :
  (∀ e, returns (h e)) → returns (try_catch m h).
Proof.
  intros Hh s. unfold try_catch. destruct (m s) as [[[a|e] s1] t1]; [by exists a |].
  destruct (Hh e s1) as [b Hb]. destruct (h e s1) as [[r s2] t2]. by exists b.
Qed.

Create HintDb returns.
#[local] Hint Resolve returns_ret returns_get returns_modify returns_tell returns_emit
  returns_when : returns.
#[local] Hint Extern 2 (returns (bind _ _)) => apply returns_bind; [| intros ?] : returns.
#[local] Hint Extern 2 (returns (try_catch _ _)) => apply returns_try_catch; intros ? : returns.
#[local] Hint Extern 4 (returns (match ?x with _ => _ end)) => destruct x : returns.
#[local] Hint Extern 4 (returns (if ?x then _ else _)) => destruct x : returns.

Ltac returns_by_structure := unfold alter_connection; auto 20 with returns.

Lemma returns_setTimeout cb ms : returns (setTimeout cb ms).
Proof. unfold setTimeout. returns_by_structure. Qed.

Lemma returns_clearTimeout k h : returns (clearTimeout k h).
Proof. unfold clearTimeout. returns_by_structure. Qed.
#[local] Hint Resolve returns_setTimeout returns_clearTimeout : returns.

Lemma returns_unbindTimeouts : returns unbindTimeouts.
Proof. unfold unbindTimeouts, unbindRetryTimeout, unbindKeepAliveTimeout. returns_by_structure. Qed.
#[local] Hint Resolve returns_unbindTimeouts : returns.

Lemma returns_resetKeepAliveTimeout : returns resetKeepAliveTimeout.
Proof. unfold resetKeepAliveTimeout, unbindKeepAliveTimeout. returns_by_structure. Qed.
#[local] Hint Resolve returns_resetKeepAliveTimeout : returns.

Lemma returns_closeWithoutEmit : returns closeWithoutEmit.
Proof.
  unfold closeWithoutEmit, res_removeAllListeners, req_removeAllListeners, req_destroy.
  returns_by_structure.
Qed.
#[local] Hint Resolve returns_closeWithoutEmit : returns.

Lemma returns_reconnect k : returns (reconnect k).
Proof. unfold reconnect. returns_by_structure. Qed.
#[local] Hint Resolve returns_reconnect : returns.

Lemma returns_onConnectionError arg : returns (onConnectionError arg).
Proof. unfold onConnectionError. returns_by_structure. Qed.
#[local] Hint Resolve returns_onConnectionError : returns.

Lemma returns_parser_emits es : returns (parser_emits es).
Proof.
  induction es as [|[] es IH]; simpl;
    unfold onParsedData, onParseError; returns_by_structure.
Qed.
#[local] Hint Resolve returns_parser_emits : returns.

Lemma returns_resume p rejection : returns (resume p rejection).
Proof.
  unfold resume, onConnectionError_catch, makeAutoReconnectRetry. returns_by_structure.
Qed.
#[local] Hint Resolve returns_resume : returns.

Lemma returns_call cb : returns (call cb).
Proof. destruct cb; simpl; unfold onKeepAliveTimeout; returns_by_structure. Qed.
#[local] Hint Resolve returns_call : returns.

Lemma returns_elapse_upto fuel : ∀ ms, returns (elapse_upto fuel ms).
Proof.
  induction fuel as [|fuel IH]; intros ms; simpl; returns_by_structure.
Qed.
#[local] Hint Resolve returns_elapse_upto : returns.

(** No input makes the stream throw. *)
Lemma returns_step i : returns (step i).
Proof.
  destruct i; simpl;
    unfold connect, destroy, close, removeAllListeners, on, errorHandler, onData, push,
      elapse;
    returns_by_structure.
Qed.

Lemma state_of_run_nil s : state_of (run [] s) = s.
Proof. done. Qed.

Lemma trace_of_run_nil s : trace_of (run [] s) = [].
Proof. done. Qed.

Lemma state_of_run_cons i inputs s :
  state_of (run (i :: inputs) s) = state_of (run inputs (state_of (step i s))).
Proof.
  simpl. unfold bind, state_of. destruct (returns_step i s) as [[] Hi].
  destruct (step i s) as [[r s1] t1]. simpl in *. subst r.
  by destruct (run inputs s1) as [[r s2] t2].
Qed.

Lemma trace_of_run_cons i inputs s :
  trace_of (run (i :: inputs) s) =
  trace_of (step i s) ++ trace_of (run inputs (state_of (step i s))).
Proof.
  simpl. unfold bind, state_of, trace_of. destruct (returns_step i s) as [[] Hi].
  destruct (step i s) as [[r s1] t1]. simpl in *. subst r.
  by destruct (run inputs s1) as [[r s2] t2].
Qed.


(** ** Scheduled timers *)

Lemma cleared_nil h : cleared h [] = [].
Proof. by destruct h. Qed.

Lemma cleared_cons_tracked rt ka (x : timeout) l :
  rt = Some (timeout_id x) ∨ ka = Some (timeout_id x) →
  cleared ka (cleared rt (x :: l)) = cleared ka (cleared rt l).
Proof.
  intros [-> | ->]; cbn [cleared].
  - by rewrite filter_cons_False by (intros Hx; by apply Hx).
  - destruct rt as [i|]; cbn [cleared].
    + rewrite filter_cons. case_decide; [| done].
      by rewrite filter_cons_False by (intros Hx; by apply Hx).
    + by rewrite filter_cons_False by (intros Hx; by apply Hx).
Qed.

(** Clearing the two handles unschedules every timer when each scheduled
    timer is behind one of them. *)
Lemma cleared_all rt ka (l : list timeout) :
  Forall (fun x => rt = Some (timeout_id x) ∨ ka = Some (timeout_id x)) l →
  cleared ka (cleared rt l) = [].
Proof.
  induction 1 as [|x l Hx _ IH]; [by rewrite !cleared_nil |].
  by rewrite cleared_cons_tracked.
Qed.

Lemma timeouts_tracked_Forall s :
  timeouts_tracked s = true →
  Forall (fun x => retryTimeout s = Some (timeout_id x)
                   ∨ keepAliveTimeout s = Some (timeout_id x)) (timeouts s).
Proof.
  unfold timeouts_tracked. intros Hs%Is_true_true%forallb_True.
  eapply Forall_impl; [exact Hs |]. intros x Hx. by apply bool_decide_unpack in Hx.
Qed.

Lemma timeouts_tracked_cleared s :
  timeouts_tracked s = true →
  cleared (keepAliveTimeout s) (cleared (retryTimeout s) (timeouts s)) = [].
Proof. intros Hs. by apply cleared_all, timeouts_tracked_Forall. Qed.

(** The same once a timer has expired and time has passed for the rest. *)
Lemma timeouts_tracked_expired s t ms :
  timeouts_tracked s = true →
  cleared (keepAliveTimeout s)
    (cleared (retryTimeout s) (timeouts (expire t (pass ms s)))) = [].
Proof.
  intros Hs%timeouts_tracked_Forall. apply cleared_all.
  rewrite Forall_forall in Hs. apply Forall_forall. intros x.
  destruct s; cbn in *. intros [_ (y & -> & Hy)%list_elem_of_fmap]%list_elem_of_filter.
  cbn. by apply Hs.
Qed.

Lemma pass_idle ms s : timeouts s = [] → pass ms s = s.
Proof. destruct s. simpl. by intros ->. Qed.

(** With no timer scheduled, time passes unnoticed. *)
Lemma elapse_upto_idle fuel ms s :
  timeouts s = [] → elapse_upto fuel ms s = (Ok tt, s, []).
Proof.
  intros Hs. destruct fuel; simpl.
  - unfold modify. by rewrite pass_idle.
  - unfold bind, get. by rewrite Hs.
Qed.

Lemma elapse_idle s ms : timeouts s = [] → step (Elapse ms) s = (Ok tt, s, []).
Proof.
  intros Hs. simpl. unfold elapse, bind, get. by rewrite elapse_upto_idle.
Qed.

Lemma idle_forever (elapsed : list Z) s :
  timeouts s = [] → run (Elapse <$> elapsed) s = (Ok tt, s, []).
Proof.
  intros Hs. induction elapsed as [|ms elapsed IH]; [done |].
  cbn [fmap list_fmap run]. unfold bind. by rewrite (elapse_idle s ms Hs), IH.
Qed.

Lemma earliest_Some_length (l : list timeout) t :
  earliest l = Some t → ∃ n, length l = S n.
Proof. destruct l; [done | by eexists]. Qed.

(** The earliest timer is due: it expires, time has passed for the other
    timers, its callback runs, and the rest of the time passes. *)
Lemma elapse_upto_expires fuel s ms t :
  earliest (timeouts s) = Some t →
  remaining t ≤ ms →
  elapse_upto (S fuel) ms s
  = bind (call (callback_of t)) (fun _ => elapse_upto fuel (ms - remaining t))
      (expire t (pass (remaining t) s)).
Proof.
  intros Ht Hdue. cbn [elapse_upto]. unfold bind at 1. unfold get at 1.
  rewrite Ht, (proj2 (Z.leb_le _ _) Hdue).
  unfold bind at 1 2, modify.
  by destruct (bind _ _ _) as [[? ?] ?].
Qed.

Lemma elapse_expires s ms t :
  earliest (timeouts s) = Some t →
  remaining t ≤ ms →
  ∃ fuel,
    step (Elapse ms) s
    = bind (call (callback_of t)) (fun _ => elapse_upto fuel (ms - remaining t))
        (expire t (pass (remaining t) s)).
Proof.
  intros Ht Hdue. destruct (earliest_Some_length _ _ Ht) as [fuel Hlen].
  exists fuel. cbn [step]. unfold elapse. unfold bind at 1. unfold get at 1.
  rewrite Hlen, (elapse_upto_expires fuel s ms t Ht Hdue).
  by destruct (bind _ _ _) as [[? ?] ?].
Qed.

(** ** Connection-failed signals *)

Lemma emitted_app tr1 tr2 : emitted (tr1 ++ tr2) = emitted tr1 ++ emitted tr2.
Proof. apply omap_app. Qed.

Lemma attempts_app tr1 tr2 : attempts (tr1 ++ tr2) = attempts tr1 ++ attempts tr2.
Proof. apply omap_app. Qed.

Lemma timeouts_set_app tr1 tr2 :
  timeouts_set (tr1 ++ tr2) = timeouts_set tr1 ++ timeouts_set tr2.
Proof. apply omap_app. Qed.

Lemma requests_app tr1 tr2 : requests (tr1 ++ tr2) = (requests tr1 + requests tr2)%nat.
Proof. unfold requests. by rewrite omap_app, length_app. Qed.

Lemma onConnectionError_ok arg s : (onConnectionError arg s).1.1 = Ok tt.
Proof. destruct (returns_onConnectionError arg s) as [[] Hs]. exact Hs. Qed.

(** [handled] carries over from [onConnectionError] to a computation that
    first emits an announcement and starts from a state that differs only
    in timers that clearing the handles unschedules anyway. *)
Lemma handled_announced announcement pre retries s s0 x0 x :
  handled [] retries s0 x0 →
  autoReconnect s0 = autoReconnect s →
  autoReconnectRetries s0 = autoReconnectRetries s →
  events s0 = events s →
  pending s0 = pending s →
  req s0 = req s →
  cleared (keepAliveTimeout s0) (cleared (retryTimeout s0) (timeouts s0))
    = cleared (keepAliveTimeout s) (cleared (retryTimeout s) (timeouts s)) →
  emitted pre = announcement → attempts pre = [] →
  timeouts_set pre = [] → requests pre = 0%nat →
  state_of x = state_of x0 →
  trace_of x = pre ++ trace_of x0 →
  handled announcement retries s x.
Proof.
  unfold handled, safeReconnectRetries.
  intros (Hrt & Hka & Hts & Hset & Hauto & Hretries & Hev & Hcase)
    Eauto Eretries Eev Epd Ereq Ets Epre Eatt Eset Ereqs -> ->.
  rewrite emitted_app, attempts_app, timeouts_set_app, requests_app.
  rewrite Epre, Eatt, Eset, Ereqs, Hrt, Hka, Hts, Hset, Hauto, Hretries, Hev.
  rewrite Eauto, Eretries, Eev, Epd, Ereq, Ets in *.
  repeat (split; [done |]).
  destruct (autoReconnect s); cbn [negb] in *.
  - destruct (retries <=? 0); by destruct Hcase as (-> & -> & -> & ->).
  - by destruct Hcase as (-> & -> & -> & ->).
Qed.

(** Every connection-failed signal announces itself and is then handled
    by [onConnectionError()] with the full budget. *)
Lemma connection_failed_cases i s :
  connection_failed i s = true →
  handled (announced i) (safeReconnectRetries s) s (step i s).
Proof.
  intros Hi. destruct i; try discriminate; simpl in Hi.
  1-3: eapply (handled_announced _
                 [AEmit ConnectionError (VError _) _;
                  AEmit Error (VStreamError ConnectionError (VError _)) _]
                 _ s s (onConnectionError None s));
    [apply onConnectionError_cases | done .. | |];
    cbv [step errorHandler bind get emit when state_of trace_of]; rewrite Hi;
    by destruct (onConnectionError None s) as [[[] ?] ?].
  apply andb_prop in Hi as [Htracked Hdue].
  destruct (earliest (timeouts s)) as [t|] eqn:Ht; [| done].
  destruct (callback_of t) eqn:Hcb; [| done]. apply Z.leb_le in Hdue.
  destruct (elapse_expires s ms t Ht Hdue) as [fuel Hstep].
  set (s0 := expire t (pass (remaining t) s)) in *.
  pose proof (onConnectionError_cases s0 None) as Hcases.
  assert (Hidle : timeouts (state_of (onConnectionError None s0)) = []).
  { destruct Hcases as (_ & _ & -> & _).
    replace (keepAliveTimeout s0) with (keepAliveTimeout s) by (by destruct s).
    replace (retryTimeout s0) with (retryTimeout s) by (by destruct s).
    by apply timeouts_tracked_expired. }
  eapply (handled_announced _ [AEmit ConnectionLost VUndefined (listeners ConnectionLost s0)]
            _ s s0 (onConnectionError None s0));
    [ replace (safeReconnectRetries s) with (default (safeReconnectRetries s0) None)
        by (by destruct s); exact Hcases
    | by destruct s .. | | | | | | | ].
  - destruct Hcases as (_ & _ & Hts & _). rewrite <- Hts, Hidle.
    symmetry. by apply timeouts_tracked_cleared.
  - done.
  - done.
  - done.
  - done.
  - rewrite Hstep, Hcb. cbn [call]. unfold onKeepAliveTimeout, bind, emit, state_of.
    pose proof (onConnectionError_ok None s0) as Hok.
    destruct (onConnectionError None s0) as [[r s1] tr1]. simpl in Hok, Hidle. subst r.
    by rewrite elapse_upto_idle.
  - rewrite Hstep, Hcb. cbn [call]. unfold onKeepAliveTimeout, bind, emit, trace_of.
    pose proof (onConnectionError_ok None s0) as Hok.
    destruct (onConnectionError None s0) as [[r s1] tr1]. simpl in Hok, Hidle. subst r.
    rewrite elapse_upto_idle by done. cbn. by rewrite app_nil_r.
Qed.

(** ** Enough fuel for the passing of time *)

Lemma state_of_bind {A B} (m : @M Payload Parser A) (k : A → @M Payload Parser B) s a :
  (m s).1.1 = Ok a → state_of (bind m k s) = state_of (k a (state_of (m s))).
Proof.
  unfold bind, state_of. destruct (m s) as [[r s1] tr1]. simpl. intros ->.
  by destruct (k a s1) as [[? ?] ?].
Qed.

Lemma earliest_None (l : list timeout) : earliest l = None → l = [].
Proof.
  destruct l as [|a l]; [done |]. cbn [earliest foldr]. fold (earliest l).
  destruct (earliest l); [by destruct (_ <=? _) | done].
Qed.

Lemma earliest_least (l : list timeout) t :
  earliest l = Some t → t ∈ l ∧ ∀ x, x ∈ l → remaining t ≤ remaining x.
Proof.
  revert t. induction l as [|a l IH]; intros t; [done |]. cbn [earliest foldr].
  fold (earliest l). destruct (earliest l) as [u|] eqn:Hu.
  - destruct (IH u eq_refl) as [Hin Hmin].
    destruct (Z.leb_spec (remaining a) (remaining u)); intros [= <-].
    + split; [left |]. intros x [->|Hx]%elem_of_cons; [lia |].
      specialize (Hmin x Hx). lia.
    + split; [by right |]. intros x [->|Hx]%elem_of_cons; [lia | by apply Hmin].
  - intros [= <-]. rewrite (earliest_None l Hu).
    split; [left |]. by intros x ->%list_elem_of_singleton.
Qed.

Lemma cleared_subseteq h (l : list timeout) x : x ∈ cleared h l → x ∈ l.
Proof. destruct h; [| done]. cbn. by intros [_ ?]%list_elem_of_filter. Qed.

Lemma length_cleared h (l : list timeout) : (length (cleared h l) ≤ length l)%nat.
Proof. destruct h; [apply length_filter | done]. Qed.

(** Neither callback schedules a timer: when it returns, the timers still
    scheduled are those that were, less the ones behind the two handles. *)
Lemma call_schedules_nothing cb s :
  (call cb s).1.1 = Ok tt
  ∧ timeouts (state_of (call cb s))
    = cleared (keepAliveTimeout s) (cleared (retryTimeout s) (timeouts s)).
Proof.
  destruct cb as [|retries]; cbn [call].
  - pose proof (onConnectionError_ok None s) as Hok.
    destruct (onConnectionError_cases s None) as (_ & _ & Hts & _).
    unfold onKeepAliveTimeout, bind, emit, state_of in *.
    by destruct (onConnectionError None s) as [[? ?] ?].
  - split; [apply onConnectionError_ok |].
    by destruct (onConnectionError_cases s (Some (retries - 1))) as (_ & _ & Hts & _).
Qed.

(** The fuel [elapse] starts with is enough: when the time has passed, no
    timer that is still scheduled is due. *)
Lemma elapse_upto_punctual fuel : ∀ ms s,
  (length (timeouts s) ≤ fuel)%nat →
  Forall (fun t => 0 ≤ remaining t) (timeouts s) →
  Forall (fun t => 0 < remaining t) (timeouts (state_of (elapse_upto fuel ms s))).
Proof.
  induction fuel as [|fuel IH]; intros ms s Hlen Hpos.
  - destruct (timeouts s) eqn:Hts; [| simpl in Hlen; lia].
    unfold elapse_upto, modify, state_of, pass. cbn. by rewrite Hts.
  - destruct (earliest (timeouts s)) as [t|] eqn:Ht.
    + destruct (earliest_least _ _ Ht) as [Hin Hmin].
      destruct (Z.leb_spec (remaining t) ms) as [Hdue|Hlater].
      * rewrite (elapse_upto_expires fuel s ms t Ht Hdue).
        set (s0 := expire t (pass (remaining t) s)).
        rewrite (state_of_bind _ _ s0 tt (proj1 (call_schedules_nothing _ s0))).
        destruct (call_schedules_nothing (callback_of t) s0) as [_ Hts1].
        assert (Hs0 : timeouts s0
                      = filter (fun x => timeout_id x ≠ timeout_id t)
                          ((fun x => {| timeout_id := timeout_id x;
                                        remaining := remaining x - remaining t;
                                        callback_of := callback_of x |}) <$> timeouts s))
          by (by destruct s).
        apply IH.
        -- rewrite Hts1. etrans; [apply length_cleared |]. etrans; [apply length_cleared |].
           rewrite Hs0.
           pose proof (length_filter_lt (fun x => timeout_id x ≠ timeout_id t)
                         ((fun x => {| timeout_id := timeout_id x;
                                       remaining := remaining x - remaining t;
                                       callback_of := callback_of x |}) <$> timeouts s)
                         {| timeout_id := timeout_id t;
                            remaining := remaining t - remaining t;
                            callback_of := callback_of t |}) as Hlt.
           rewrite length_fmap in Hlt.
           assert (length (filter (fun x => timeout_id x ≠ timeout_id t)
                     ((fun x => {| timeout_id := timeout_id x;
                                   remaining := remaining x - remaining t;
                                   callback_of := callback_of x |}) <$> timeouts s))
                   < length (timeouts s))%nat; [| lia].
           apply Hlt; [| intros Hne; by apply Hne].
           apply list_elem_of_fmap. by exists t.
        -- apply Forall_forall. intros x Hx. rewrite Hts1 in Hx.
           apply cleared_subseteq, cleared_subseteq in Hx. rewrite Hs0 in Hx.
           apply list_elem_of_filter in Hx as [_ (y & -> & Hy)%list_elem_of_fmap].
           cbn. specialize (Hmin y Hy). lia.
      * cbn [elapse_upto]. unfold bind, get. rewrite Ht, (proj2 (Z.leb_gt _ _) Hlater).
        unfold modify, state_of, pass. destruct s. cbn in *.
        apply Forall_fmap, Forall_forall. intros x Hx. cbn.
        specialize (Hmin x Hx). lia.
    + cbn [elapse_upto]. unfold bind, get. rewrite Ht.
      unfold ret, state_of. cbn [fst snd]. rewrite (earliest_None _ Ht). constructor.
Qed.

(** When time has passed, no timer that is still scheduled is overdue:
    every timer due within the lapse has expired or been cleared. *)
Lemma elapse_leaves_nothing_due s ms :
  Forall (fun t => 0 < remaining t) (timeouts s) →
  Forall (fun t => 0 < remaining t) (timeouts (state_of (step (Elapse ms) s))).
Proof.
  intros Hpos. cbn [step]. unfold elapse.
  rewrite (state_of_bind get _ s s eq_refl).
  apply elapse_upto_punctual; [done |].
  eapply Forall_impl; [exact Hpos |]. intros t Ht. cbn in Ht. lia.
Qed.


(** ** The retry chain *)

(** The factory rejects while [onConnectionError(r)] awaits it: the
    [catch] block reports the failure and schedules the retry timer. *)
Lemma settle_rejected s P b r e :
  pending s = P ++ [{| initialConnection := b; awaited_by := FromRetry r |}] →
  let x := step (Settle (length P) (Some e)) s in
  emitted (trace_of x) = [ReconnectError; Error]
  ∧ attempts (trace_of x) = []
  ∧ requests (trace_of x) = 0%nat
  ∧ timeouts_set (trace_of x) = [(RetryTimeout, nextRetry (safeReconnectRetries s - r + 1))]
  ∧ retryTimeout (state_of x) = Some (timeout_seq s)
  ∧ timeouts (state_of x)
    = timeouts s
        ++ [{| timeout_id := timeout_seq s;
               remaining := timeout_delay (nextRetry (safeReconnectRetries s - r + 1));
               callback_of := OnRetryTimeout r |}]
  ∧ keepAliveTimeout (state_of x) = keepAliveTimeout s
  ∧ pending (state_of x) = P
  ∧ autoReconnect (state_of x) = autoReconnect s
  ∧ autoReconnectRetries (state_of x) = autoReconnectRetries s.
Proof.
  destruct s as [ar arr kam rt ka p q r' rd evs cs pd ts n]. simpl. intros ->.
  cbv [step bind get modify state_of trace_of pending].
  rewrite list_lookup_middle by done. rewrite delete_middle, app_nil_r.
  methods. cbn. done.
Qed.

(** The retry timer, the only timer scheduled, expires: its callback runs
    [onConnectionError(retries - 1)]. *)
Lemma retry_timer_fires s t retries ms :
  timeouts s = [t] → callback_of t = OnRetryTimeout retries → remaining t ≤ ms →
  step (Elapse ms) s = onConnectionError (Some (retries - 1)) (set_timeouts [] s).
Proof.
  intros Hts Hcb Hdue.
  assert (Ht : earliest (timeouts s) = Some t) by (by rewrite Hts).
  destruct (elapse_expires s ms t Ht Hdue) as [fuel ->]. rewrite Hcb. cbn [call].
  assert (Hs0 : expire t (pass (remaining t) s) = set_timeouts [] s).
  { destruct s. cbn in Hts. subst. unfold expire, pass.
    cbn [timeouts set_timeouts fmap list_fmap].
    by rewrite filter_cons_False by (cbn; intros Hx; by apply Hx). }
  rewrite Hs0. unfold bind.
  pose proof (onConnectionError_ok (Some (retries - 1)) (set_timeouts [] s)) as Hok.
  destruct (onConnectionError_cases (set_timeouts [] s) (Some (retries - 1)))
    as (_ & _ & Hidle & _).
  destruct (onConnectionError _ _) as [[r s1] tr1].
  unfold state_of in Hidle. simpl in Hok, Hidle. subst r.
  rewrite elapse_upto_idle, ?app_nil_r; [done |].
  rewrite Hidle. destruct s. cbn. by rewrite !cleared_nil.
Qed.

Lemma nextRetry_range n : n ≠ 0 → 1000 ≤ nextRetry n ≤ 25000.
Proof. unfold nextRetry. nia. Qed.

Lemma timeout_delay_nextRetry n : n ≠ 0 → timeout_delay (nextRetry n) = nextRetry n.
Proof.
  intros Hn. pose proof (nextRetry_range n Hn). unfold timeout_delay.
  destruct (nextRetry n <? 1) eqn:E1; [lia |].
  destruct (2147483647 <? nextRetry n) eqn:E2; [lia | done].
Qed.

Lemma failed_attempt_events_S n :
  failed_attempt_events (S n)
  = ReconnectAttempt :: ReconnectError :: Error :: failed_attempt_events n.
Proof. done. Qed.

Lemma failed_attempts_S n tryOccurence k (e : value Payload) :
  failed_attempts (S n) tryOccurence k e
  = Settle k (Some e) :: Elapse (nextRetry tryOccurence)
      :: failed_attempts n (tryOccurence + 1) k e.
Proof. done. Qed.

(** Projections of a state whose timers have been replaced. *)
Ltac project :=
  cbn [set_timeouts autoReconnect autoReconnectRetries keepAliveTimeoutMs retryTimeout
       keepAliveTimeout parser req res requestData events connections pending
       timeouts timeout_seq] in *.

Lemma safeReconnectRetries_set_timeouts l s :
  safeReconnectRetries (set_timeouts l s) = safeReconnectRetries s.
Proof. done. Qed.

(** With [S n] retries left for the attempt in flight and no timer
    scheduled, [S n] failures in a row end the chain. *)
Lemma failed_attempts_exhaust n : ∀ s P b e,
  autoReconnect s = true →
  timeouts s = [] →
  pending s = P ++ [{| initialConnection := b; awaited_by := FromRetry (Z.of_nat (S n)) |}] →
  Z.of_nat (S n) ≤ safeReconnectRetries s →
  let x := run (failed_attempts (S n) (safeReconnectRetries s - Z.of_nat (S n) + 1)
                  (length P) e) s in
  ReconnectAttempt :: emitted (trace_of x)
    = failed_attempt_events (S n) ++ [ReconnectLimitExceeded; ConnectionClosed]
  ∧ attempts (trace_of x) = attempt_numbers (safeReconnectRetries s - Z.of_nat n) n
  ∧ requests (trace_of x) = n
  ∧ retryTimeout (state_of x) = None
  ∧ keepAliveTimeout (state_of x) = None
  ∧ timeouts (state_of x) = []
  ∧ pending (state_of x) = P.
Proof.
  induction n as [|n IH]; intros s P b e Hauto Hts Hpd Hle x; subst x;
    rewrite failed_attempts_S, !state_of_run_cons, !trace_of_run_cons;
    destruct (settle_rejected s P b _ e Hpd)
      as (Hemit1 & Hatt1 & Hreq1 & _ & _ & Hts1 & _ & Hpd1 & Hauto1 & Hretries1);
    set (s1 := state_of (step (Settle (length P) (Some e)) s)) in *;
    assert (Hsafe1 : safeReconnectRetries s1 = safeReconnectRetries s)
      by (unfold safeReconnectRetries; by rewrite Hretries1);
    rewrite Hts, timeout_delay_nextRetry in Hts1 by lia; cbn [app] in Hts1;
    rewrite (retry_timer_fires s1 _ _ _ Hts1 eq_refl) by (cbn; lia).
  - destruct (onConnectionError_cases (set_timeouts [] s1) (Some (Z.of_nat 1 - 1)))
      as (Hrt2 & Hka2 & Hts2 & _ & Hauto2 & Hretries2 & _ & Hcase).
    project. rewrite Hauto1, Hauto in Hcase. cbn [negb default from_option id] in Hcase.
    change (Z.of_nat 1 - 1 <=? 0) with true in Hcase.
    destruct Hcase as (Hemit2 & Hatt2 & Hreq2 & Hpd2).
    rewrite state_of_run_nil, trace_of_run_nil, app_nil_r.
    rewrite emitted_app, attempts_app, requests_app.
    rewrite Hemit1, Hemit2, Hatt1, Hatt2, Hreq1, Hreq2.
    rewrite Hpd2, Hpd1, Hrt2, Hka2, Hts2, !cleared_nil. done.
  - destruct (onConnectionError_cases (set_timeouts [] s1) (Some (Z.of_nat (S (S n)) - 1)))
      as (Hrt2 & Hka2 & Hts2 & _ & Hauto2 & Hretries2 & _ & Hcase).
    project. rewrite Hauto1, Hauto in Hcase. cbn [negb default from_option id] in Hcase.
    rewrite (proj2 (Z.leb_gt _ _)) in Hcase by lia.
    destruct Hcase as (Hemit2 & Hatt2 & Hreq2 & Hpd2).
    set (s2 := state_of (onConnectionError (Some (Z.of_nat (S (S n)) - 1))
                           (set_timeouts [] s1))) in *.
    assert (Hsafe2 : safeReconnectRetries s2 = safeReconnectRetries s)
      by (unfold safeReconnectRetries; by rewrite Hretries2, Hretries1).
    rewrite Hpd1 in Hpd2. rewrite !cleared_nil in Hts2.
    replace (Z.of_nat (S (S n)) - 1) with (Z.of_nat (S n)) in Hpd2 by lia.
    specialize (IH s2 P _ e (eq_trans Hauto2 (eq_trans Hauto1 Hauto)) Hts2 Hpd2).
    rewrite Hsafe2 in IH. specialize (IH ltac:(lia)).
    replace (safeReconnectRetries s - Z.of_nat (S (S n)) + 1 + 1)
      with (safeReconnectRetries s - Z.of_nat (S n) + 1) by lia.
    destruct IH as (IHemit & IHatt & IHreq & IHrt & IHka & IHts & IHpd).
    rewrite !emitted_app, !attempts_app, !requests_app.
    rewrite safeReconnectRetries_set_timeouts, Hsafe1 in Hatt2.
    rewrite Hemit1, Hemit2, Hatt1, Hatt2, Hreq1, Hreq2, IHatt, IHreq.
    repeat split; try done.
    + rewrite (failed_attempt_events_S (S n)). cbn [app]. by rewrite IHemit.
    + cbn [app attempt_numbers]. do 2 f_equal; lia.
Qed.

Lemma occurrences_app ev l1 l2 :
  occurrences ev (l1 ++ l2) = (occurrences ev l1 + occurrences ev l2)%nat.
Proof. unfold occurrences. by rewrite filter_app, length_app. Qed.

Lemma occurrences_failed_attempt_events ev n :
  ev ≠ ReconnectAttempt → ev ≠ ReconnectError → ev ≠ Error →
  occurrences ev (failed_attempt_events n) = 0%nat.
Proof.
  intros H1 H2 H3. induction n as [|n IH]; [done |].
  rewrite failed_attempt_events_S. unfold occurrences in *.
  rewrite !filter_cons. by repeat case_decide.
Qed.

(** X19. One retry chain. With [autoReconnect = true] and a budget of
    [N] retries, a safe integer, on a stream whose scheduled timers are
    the ones it holds: when one connection-failed signal is followed by
    [N] reconnect attempts that fail in a row (the factory rejects, the
    backoff delay passes) and by nothing else, the stream emits, after
    the [N] attempts numbered [0 .. N-1], [ReconnectLimitExceeded] and
    then [ConnectionClosed], each exactly once; it asks the factory [N]
    times, leaves no timer scheduled and no attempt in flight, and no
    lapse of time makes it act again. *)
Theorem reconnect_limit_exceeded i s N e :
  autoReconnect s = true →
  autoReconnectRetries s = Num N →
  0 ≤ N →
  N ≤ MAX_SAFE_INTEGER →
  timeouts_tracked s = true →
  connection_failed i s = true →
  let x := run (i :: failed_attempts (Z.to_nat N) 1 (length (pending s)) e) s in
  emitted (trace_of x)
    = announced i ++ failed_attempt_events (Z.to_nat N)
        ++ [ReconnectLimitExceeded; ConnectionClosed]
  ∧ occurrences ReconnectLimitExceeded (emitted (trace_of x)) = 1%nat
  ∧ occurrences ConnectionClosed (emitted (trace_of x)) = 1%nat
  ∧ attempts (trace_of x) = attempt_numbers 0 (Z.to_nat N)
  ∧ requests (trace_of x) = Z.to_nat N
  ∧ retryTimeout (state_of x) = None
  ∧ keepAliveTimeout (state_of x) = None
  ∧ timeouts (state_of x) = []
  ∧ pending (state_of x) = pending s
  ∧ ∀ elapsed : list Z,
      run (Elapse <$> elapsed) (state_of x) = (Ok tt, state_of x, []).
Proof.
  intros Hauto Hretries HN _ Htracked Hi x.
  assert (Hsafe : safeReconnectRetries s = N)
    by (unfold safeReconnectRetries; by rewrite Hretries).
  assert (Hmain :
    emitted (trace_of x)
      = announced i ++ failed_attempt_events (Z.to_nat N)
          ++ [ReconnectLimitExceeded; ConnectionClosed]
    ∧ attempts (trace_of x) = attempt_numbers 0 (Z.to_nat N)
    ∧ requests (trace_of x) = Z.to_nat N
    ∧ retryTimeout (state_of x) = None
    ∧ keepAliveTimeout (state_of x) = None
    ∧ timeouts (state_of x) = []
    ∧ pending (state_of x) = pending s).
  { subst x. rewrite state_of_run_cons, trace_of_run_cons.
    destruct (connection_failed_cases i s Hi)
      as (Hrt1 & Hka1 & Hts1 & _ & Hauto1 & Hretries1 & _ & Hcase).
    rewrite (timeouts_tracked_cleared s Htracked) in Hts1.
    rewrite Hauto in Hcase. cbn [negb] in Hcase. rewrite Hsafe in Hcase.
    set (s1 := state_of (step i s)) in *.
    rewrite !emitted_app, !attempts_app, !requests_app.
    destruct (Z.to_nat N) as [|n] eqn:Hn.
    - assert (N = 0) as -> by lia. change (0 <=? 0) with true in Hcase.
      destruct Hcase as (Hemit & Hatt1 & Hreq1 & Hpd1).
      rewrite state_of_run_nil, trace_of_run_nil, Hemit, Hatt1, Hreq1, Hpd1.
      split; [by rewrite app_nil_r | done].
    - rewrite (proj2 (Z.leb_gt _ _)) in Hcase by lia.
      destruct Hcase as (Hemit & Hatt1 & Hreq1 & Hpd1).
      assert (HN' : N = Z.of_nat (S n)) by lia.
      assert (Hsafe1 : safeReconnectRetries s1 = N)
        by (unfold safeReconnectRetries; by rewrite Hretries1, Hretries).
      rewrite HN' in Hpd1.
      destruct (failed_attempts_exhaust n s1 (pending s) _ e
                  (eq_trans Hauto1 Hauto) Hts1 Hpd1 ltac:(lia))
        as (Hemit2 & Hatt2 & Hreq2 & Hrt2 & Hka2 & Hts2 & Hpd2).
      replace (safeReconnectRetries s1 - Z.of_nat (S n) + 1) with 1 in * by lia.
      rewrite Hemit, Hatt1, Hreq1, Hatt2, Hreq2, Hsafe1.
      repeat split; try done.
      + rewrite <- app_assoc. cbn [app]. by rewrite Hemit2.
      + cbn [app attempt_numbers]. do 2 f_equal; lia. }
  destruct Hmain as (Hemit & Hatt & Hreq & Hrt & Hka & Hts & Hpd).
  repeat split; try done.
  - rewrite Hemit, !occurrences_app, occurrences_failed_attempt_events by done.
    by destruct i.
  - rewrite Hemit, !occurrences_app, occurrences_failed_attempt_events by done.
    by destruct i.
  - intros elapsed. by apply idle_forever.
Qed.

(** C3. When the reconnect attempt started by [onConnectionError(retries)]
    fails, the retry timer is scheduled
    [min(n² × 1000, 25000)] milliseconds ahead, where
    [n = safeReconnectRetries - retries + 1 ≥ 1] is the number of the
    retry the timer will start; the delay never exceeds 25000 and does not
    decrease when [n] grows. *)
Theorem backoff_delay s P b retries e n :
  pending s = P ++ [{| initialConnection := b; awaited_by := FromRetry retries |}] →
  n = safeReconnectRetries s - retries + 1 →
  1 ≤ n →
  let x := step (Settle (length P) (Some e)) s in
  timeouts_set (trace_of x) = [(RetryTimeout, Z.min (n ^ 2 * 1000) 25000)]
  ∧ retryTimeout (state_of x) = Some (timeout_seq s)
  ∧ timeouts (state_of x)
    = timeouts s ++ [{| timeout_id := timeout_seq s;
                        remaining := Z.min (n ^ 2 * 1000) 25000;
                        callback_of := OnRetryTimeout retries |}]
  ∧ Z.min (n ^ 2 * 1000) 25000 ≤ 25000
  ∧ ∀ m, n ≤ m → Z.min (n ^ 2 * 1000) 25000 ≤ Z.min (m ^ 2 * 1000) 25000.
Proof.
  intros Hpd -> Hn x.
  destruct (settle_rejected s P b retries e Hpd) as (_ & _ & _ & Hset & Hrt & Hts & _).
  fold x in Hset, Hrt, Hts. rewrite timeout_delay_nextRetry in Hts by lia.
  repeat split; [done | done | done | lia |]. intros m Hm. nia.
Qed.

(** When the retry timer set by [makeAutoReconnectRetry(retries)] expires,
    the next attempt starts and announces one attempt more. *)
Lemma retry_after_backoff s t retries ms :
  autoReconnect s = true →
  timeouts s = [t] → callback_of t = OnRetryTimeout retries → remaining t ≤ ms →
  1 < retries →
  attempts (trace_of (step (Elapse ms) s)) = [safeReconnectRetries s - retries + 1].
Proof.
  intros Hauto Hts Hcb Hd Hr. rewrite (retry_timer_fires s t retries ms Hts Hcb Hd).
  destruct (onConnectionError_cases (set_timeouts [] s) (Some (retries - 1)))
    as (_ & _ & _ & _ & _ & _ & _ & Hcase).
  project. rewrite Hauto in Hcase. cbn [negb default from_option id] in Hcase.
  rewrite (proj2 (Z.leb_gt _ _)) in Hcase by lia.
  destruct Hcase as (_ & -> & _). rewrite safeReconnectRetries_set_timeouts. f_equal. lia.
Qed.

(** C1, as the code has it. Every connection-failed signal on a stream
    with [autoReconnect] and a positive budget starts a retry chain with
    the full budget, whatever happened before: it announces attempt 0 and
    the reconnect it leaves in flight remembers
    [retries = safeReconnectRetries]. The count of attempts lives only in
    that chain, not on the stream. *)
Theorem budget_restarts_on_failure i s :
  autoReconnect s = true →
  0 < safeReconnectRetries s →
  connection_failed i s = true →
  attempts (trace_of (step i s)) = [0]
  ∧ pending (state_of (step i s))
      = pending s ++ [{| initialConnection := bool_decide (req s = None);
                         awaited_by := FromRetry (safeReconnectRetries s) |}].
Proof.
  intros Hauto Hpos Hi.
  destruct (connection_failed_cases i s Hi) as (_ & _ & _ & _ & _ & _ & _ & Hcase).
  rewrite Hauto in Hcase. cbn [negb] in Hcase.
  rewrite (proj2 (Z.leb_gt _ _)) in Hcase by lia.
  destruct Hcase as (_ & -> & _ & ->). split; [|done]. f_equal. lia.
Qed.

Lemma try_catch_ok {A} (m : @M Payload Parser A) h s a :
  (m s).1.1 = Ok a → try_catch m h s = m s.
Proof. unfold try_catch. destruct (m s) as [[[] ?] ?]; [done | discriminate]. Qed.

(** After its [await], [reconnect()] does not throw: the handles have
    just been set. *)
Lemma reconnect_resumed_ok b s : ∃ a, (reconnect_resumed b s).1.1 = Ok a.
Proof.
  exists tt.
  destruct s as [ar arr [kam|] rt [ka|] p q r rd evs cs pd ts n];
    methods; reflexivity.
Qed.

(** A reconnect that succeeds leaves the stream in the same state whether
    [onConnectionError] or an outside caller awaited it: no count of past
    attempts is kept. *)
Lemma resumed_state_forgets_retries s b retries :
  state_of (resume {| initialConnection := b; awaited_by := FromRetry retries |} None s)
  = state_of (resume {| initialConnection := b; awaited_by := FromOutside |} None s).
Proof.
  destruct (reconnect_resumed_ok b s) as [[] Hok].
  unfold resume. cbn [initialConnection awaited_by].
  by rewrite !(try_catch_ok _ _ _ _ Hok).
Qed.

(** ** Data chunks and parser events *)

Lemma resetKeepAliveTimeout_eq s :
  resetKeepAliveTimeout s
  = (Ok tt, state_of (resetKeepAliveTimeout s), watchdog_rearmed s)
  ∧ keepAliveTimeout (state_of (resetKeepAliveTimeout s)) = watchdog_handle s
  ∧ timeouts (state_of (resetKeepAliveTimeout s)) = watchdog_timeouts s
  ∧ parser (state_of (resetKeepAliveTimeout s)) = parser s
  ∧ events (state_of (resetKeepAliveTimeout s)) = events s
  ∧ requestData (state_of (resetKeepAliveTimeout s)) = requestData s.
Proof.
  destruct s as [ar arr [kam|] rt [ka|] p q r rd evs cs pd ts n];
    unfold watchdog_rearmed, watchdog_handle, watchdog_timeouts;
    methods; cbn; rewrite ?app_nil_r; repeat split; reflexivity.
Qed.

Lemma parser_listener_eq e s : parser_listener e s = (Ok tt, s, relayed s e).
Proof.
  destruct e as [d|err]; [| done].
  unfold parser_listener, onParsedData, relayed, classified_as_error, bind, get.
  by destruct (match payloadIsError (requestData s) with Some f => f d | None => false end).
Qed.

Lemma parser_emits_eq es s : parser_emits es s = (Ok tt, s, es ≫= relayed s).
Proof.
  induction es as [|e es IH]; [done |].
  cbn [parser_emits]. unfold bind at 1. by rewrite parser_listener_eq, IH.
Qed.

Lemma push_eq chunk s :
  push chunk s
  = (Ok tt, set_parser (parser_push chunk (parser s)).1 s,
     AParserPush chunk :: ((parser_push chunk (parser s)).2 ≫= relayed s)).
Proof.
  unfold push, bind, get, tell, modify. by rewrite parser_emits_eq.
Qed.

Lemma relayed_never_closes s es :
  occurrences ConnectionClosed (emitted (es ≫= relayed s)) = 0%nat.
Proof.
  induction es as [|[d|err] es IH]; [done | |];
    cbn [mbind list_bind]; rewrite emitted_app, occurrences_app, IH;
    unfold relayed; [by destruct (classified_as_error s d) | done].
Qed.

(** Parser events are relayed alike from states with the same registry
    and request data. *)
Lemma relayed_ext s s' e :
  events s' = events s → requestData s' = requestData s → relayed s' e = relayed s e.
Proof.
  intros Hev Hrd. unfold relayed, classified_as_error, listeners. by rewrite Hev, Hrd.
Qed.

(** C5. When a chunk arrives on a response that carries the stream's
    listeners, the watchdog is rearmed first (its pending timer cleared
    and, unless it is disabled, a new one scheduled a full interval
    ahead). After that a chunk equal to the keep-alive payload only makes
    [DataKeepAlive] fire and never reaches the parser, whose state stays
    as it was; any other chunk is pushed to the parser, and only the
    events relayed from the parser follow. *)
Theorem chunk_received c chunk s :
  has_res_listeners c s = true →
  let x := step (ResData c chunk) s in
  keepAliveTimeout (state_of x) = watchdog_handle s
  ∧ timeouts (state_of x) = watchdog_timeouts s
  ∧ (chunk = CRLF →
       trace_of x = watchdog_rearmed s
                      ++ [AEmit DataKeepAlive VUndefined (listeners DataKeepAlive s)]
       ∧ emitted (trace_of x) = [DataKeepAlive]
       ∧ parser (state_of x) = parser s)
  ∧ (chunk ≠ CRLF →
       trace_of x = watchdog_rearmed s ++ AParserPush chunk
                      :: ((parser_push chunk (parser s)).2 ≫= relayed s)
       ∧ parser (state_of x) = (parser_push chunk (parser s)).1).
Proof.
  intros Hc x. subst x.
  destruct (resetKeepAliveTimeout_eq s) as (Hreset & Hka & Hts & Hparser & Hev & Hrd).
  cbv [step bind get when onData emit]. rewrite Hc, Hreset.
  set (s1 := state_of (resetKeepAliveTimeout s)) in *.
  destruct (decide (chunk = CRLF)) as [Heq|Hne].
  - split; [done |]. split; [done |]. split; [intros _ | done].
    split; [by unfold listeners; rewrite Hev |]. split; [| done].
    cbn [trace_of snd app]. rewrite emitted_app.
    by destruct s as [ar arr [kam|] rt [ka|] p q r rd evs cs pd ts n].
  - rewrite push_eq. cbn [state_of trace_of fst snd].
    split; [done |]. split; [done |]. split; [done | intros _].
    rewrite Hparser. split; [| done]. cbn [app]. do 2 f_equal.
    apply list_bind_ext; [| done]. intros e. by apply relayed_ext.
Qed.

(** C7. The stream relays each parser event and nothing else happens to
    it: a message the error predicate classifies as erroneous makes
    [DataError] fire, immediately followed by [Error] carrying that
    category and the message, and no [Data]; any other message makes only
    [Data] fire; a decode failure makes [TweetParseError] fire,
    immediately followed by [Error]. The stream's state is untouched, so
    the session stays bound and armed, and whatever the parser reports
    for a chunk, no [ConnectionClosed] is emitted. *)
Theorem parser_events_relayed s :
  (∀ eventData, classified_as_error s eventData = true →
     parser_listener (ParsedData eventData) s
     = (Ok tt, s,
        [AEmit DataError (VPayload eventData) (listeners DataError s);
         AEmit Error (VStreamError DataError (VPayload eventData)) (listeners Error s)]))
  ∧ (∀ eventData, classified_as_error s eventData = false →
       parser_listener (ParsedData eventData) s
       = (Ok tt, s, [AEmit Data (VPayload eventData) (listeners Data s)]))
  ∧ (∀ error,
       parser_listener (ParseError error) s
       = (Ok tt, s,
          [AEmit TweetParseError (VError error) (listeners TweetParseError s);
           AEmit Error (VStreamError TweetParseError (VError error)) (listeners Error s)]))
  ∧ (∀ chunk,
       state_of (push chunk s) = set_parser (parser_push chunk (parser s)).1 s
       ∧ trace_of (push chunk s)
         = AParserPush chunk :: ((parser_push chunk (parser s)).2 ≫= relayed s)
       ∧ occurrences ConnectionClosed (emitted (trace_of (push chunk s))) = 0%nat).
Proof.
  split; [| split; [| split]].
  - intros d Hd. rewrite parser_listener_eq. unfold relayed. by rewrite Hd.
  - intros d Hd. rewrite parser_listener_eq. unfold relayed. by rewrite Hd.
  - intros err. by rewrite parser_listener_eq.
  - intros chunk. rewrite push_eq. split; [done |]. split; [done |].
    apply relayed_never_closes.
Qed.

(** ** Reconnecting *)

(** [reconnect()] up to its [await]: a still-open session is torn down
    silently, then the factory is called. Parser, registry, watchdog
    interval, timer handles to come and the handles the stream points to
    stay as they were. *)
Lemma reconnect_called k s :
  let x := reconnect k s in
  trace_of x = silent_teardown s ++ [AMakeRequest]
  ∧ emitted (trace_of x) = []
  ∧ pending (state_of x)
      = pending s ++ [{| initialConnection := bool_decide (req s = None);
                         awaited_by := k |}]
  ∧ parser (state_of x) = parser s
  ∧ events (state_of x) = events s
  ∧ keepAliveTimeoutMs (state_of x) = keepAliveTimeoutMs s
  ∧ timeout_seq (state_of x) = timeout_seq s
  ∧ length (connections (state_of x)) = length (connections s).
Proof.
  destruct s as [ar arr kam [?|] [?|] p [q|] [r|] rd evs cs pd ts n];
    methods; unfold silent_teardown; cbn; branches;
    rewrite ?length_alter; done.
Qed.

(** [reconnect()] after its [await], for either caller: the stream points
    to the new pair, announces the connection, resets the parser, binds
    its listeners to the pair and rearms the watchdog. *)
Lemma reconnect_resolved b k s :
  let y := resume {| initialConnection := b; awaited_by := k |} None s in
  let c := length (connections s) in
  trace_of y
    = [AEmit (if b then Connected else Reconnected) VUndefined
         (listeners (if b then Connected else Reconnected) s);
       AParserReset; AReqOn c; AResOn c] ++ watchdog_rearmed s
  ∧ parser (state_of y) = parser_reset (parser s)
  ∧ req (state_of y) = Some c
  ∧ res (state_of y) = Some c
  ∧ connections (state_of y)
      = connections s ++ [{| destroyed := false; req_listeners := true;
                             res_listeners := true |}]
  ∧ keepAliveTimeout (state_of y) = watchdog_handle s
  ∧ timeouts (state_of y) = watchdog_timeouts s
  ∧ pending (state_of y) = pending s.
Proof.
  destruct s as [ar arr [kam|] rt [ka|] p q r rd evs cs pd ts n]; destruct k, b;
    methods; unfold watchdog_rearmed, watchdog_handle, watchdog_timeouts; cbn;
    rewrite !alter_app_r_alt, ?Nat.sub_diag, ?app_nil_r by done;
    repeat split; reflexivity.
Qed.

(** The factory promise of the call suspended last settles. *)
Lemma settle_last s P p rejection :
  pending s = P ++ [p] →
  step (Settle (length P) rejection) s = resume p rejection (set_pending P s).
Proof.
  destruct s as [ar arr kam rt ka ps q r rd evs cs pd ts n]. simpl. intros ->.
  cbv [step bind get modify pending].
  rewrite list_lookup_middle by done. rewrite delete_middle, app_nil_r.
  by destruct (resume _ _ _) as [[? ?] ?].
Qed.


(** ** Closing *)

Lemma closeWithoutEmit_ok s : (closeWithoutEmit s).1.1 = Ok tt.
Proof. destruct (returns_closeWithoutEmit s) as [[] Hs]. exact Hs. Qed.

Lemma close_eq s :
  state_of (close s) = state_of (closeWithoutEmit s)
  ∧ trace_of (close s)
    = AEmit ConnectionClosed VUndefined (listeners ConnectionClosed s)
        :: trace_of (closeWithoutEmit s).
Proof.
  unfold close, bind, emit, state_of, trace_of.
  by destruct (closeWithoutEmit s) as [[? ?] ?].
Qed.

Lemma destroy_eq s :
  state_of (destroy s) = state_of (closeWithoutEmit (set_events [] s))
  ∧ trace_of (destroy s)
    = ARemoveAllListeners :: AEmit ConnectionClosed VUndefined []
        :: trace_of (closeWithoutEmit (set_events [] s)).
Proof.
  unfold destroy, removeAllListeners, close, bind, emit, modify, tell, state_of, trace_of.
  cbn. by destruct (closeWithoutEmit (set_events [] s)) as [[? ?] ?].
Qed.

(** The silent teardown detaches the stream's listeners from the handles
    it points to and destroys the request. *)
Lemma closeWithoutEmit_aborts s :
  (∀ q, req s = Some q →
     In (AReqDestroy q) (trace_of (closeWithoutEmit s))
     ∧ has_req_listeners q (state_of (closeWithoutEmit s)) = false
     ∧ (is_Some (connections s !! q) →
        req_destroyed q (state_of (closeWithoutEmit s)) = true))
  ∧ (∀ r, res s = Some r → has_res_listeners r (state_of (closeWithoutEmit s)) = false).
Proof.
  destruct s as [ar arr kam [?|] [?|] p [q|] [r|] rd evs cs pd ts n];
    (split; [intros q' [= <-] | intros r' [= <-]]);
    methods; unfold req_destroyed; cbn;
    rewrite ?list_lookup_alter;
    repeat case_decide; subst;
    try (destruct (cs !! _) as [[? ? ?]|]); cbn;
    repeat split; auto 10 using is_Some_None;
    try (by intros [? [=]]); try congruence.
Qed.

(** [close()] and [destroy()] drop both timer handles after clearing
    their timers, destroy the request the stream points to and take the
    stream's listeners off both handles. When every scheduled timer was
    behind one of the two handles, nothing stays scheduled and however
    much time passes nothing is emitted and nothing changes. *)
Lemma close_cancels_tracked_timers (destroying : bool) s :
  let x := step (if destroying then Call_destroy else Call_close) s in
  retryTimeout (state_of x) = None
  ∧ keepAliveTimeout (state_of x) = None
  ∧ timeouts (state_of x)
    = cleared (keepAliveTimeout s) (cleared (retryTimeout s) (timeouts s))
  ∧ (timeouts_tracked s = true →
     ∀ elapsed : list Z,
       run (Elapse <$> elapsed) (state_of x) = (Ok tt, state_of x, []))
  ∧ (∀ q, req s = Some q →
       In (AReqDestroy q) (trace_of x)
       ∧ has_req_listeners q (state_of x) = false
       ∧ (is_Some (connections s !! q) → req_destroyed q (state_of x) = true))
  ∧ (∀ r, res s = Some r → has_res_listeners r (state_of x) = false).
Proof.
  intros x.
  assert (Hx : ∃ s0, state_of x = state_of (closeWithoutEmit s0)
                     ∧ (∃ pre, trace_of x = pre ++ trace_of (closeWithoutEmit s0))
                     ∧ req s0 = req s ∧ res s0 = res s ∧ connections s0 = connections s
                     ∧ retryTimeout s0 = retryTimeout s
                     ∧ keepAliveTimeout s0 = keepAliveTimeout s
                     ∧ timeouts s0 = timeouts s).
  { subst x. destruct destroying; cbn [step].
    - exists (set_events [] s). destruct (destroy_eq s) as [-> ->].
      split; [done |]. split; [by eexists [_; _] | by destruct s].
    - exists s. destruct (close_eq s) as [-> ->].
      split; [done |]. split; [by eexists [_] | done]. }
  destruct Hx as (s0 & -> & (pre & ->) & Hreq & Hres & Hcs & Ert & Eka & Ets).
  destruct (closeWithoutEmit_silent s0) as (_ & _ & _ & Hrt & Hka & Hts & _).
  destruct (closeWithoutEmit_aborts s0) as [Hq Hr].
  rewrite Hreq, Hcs in Hq. rewrite Hres in Hr. rewrite Ert, Eka, Ets in Hts.
  split; [done |]. split; [done |]. split; [done |].
  split; [| split; [| exact Hr]].
  - intros Htracked elapsed. apply idle_forever.
    by rewrite Hts, timeouts_tracked_cleared.
  - intros q Hsq. destruct (Hq q Hsq) as (Hin & Hoff & Hdestroyed).
    split; [apply in_or_app; by right | done].
Qed.

(** A [reconnect()] in flight is not called off by [close()]. *)
Lemma close_keeps_pending s : pending (state_of (close s)) = pending s.
Proof.
  destruct (close_eq s) as [-> _].
  by destruct (closeWithoutEmit_silent s) as (_&_&_&_&_&_&?&_).
Qed.

Lemma silent_trace_delivers_nothing ev tr : emitted tr = [] → deliveries ev tr = [].
Proof.
  induction tr as [|a tr IH]; [done |]. destruct a; try discriminate; exact IH.
Qed.

(** C10. [destroy()] first empties the registry and only then runs
    [close()]: the [ConnectionClosed] it emits reaches no subscriber,
    nothing else is emitted, so no handler is called at all, and the
    registry stays empty. *)
Theorem destroy_notifies_nobody s :
  trace_of (destroy s)
    = ARemoveAllListeners :: AEmit ConnectionClosed VUndefined []
        :: trace_of (closeWithoutEmit s)
  ∧ emitted (trace_of (destroy s)) = [ConnectionClosed]
  ∧ (∀ ev, deliveries ev (trace_of (destroy s)) = [])
  ∧ events (state_of (destroy s)) = [].
Proof.
  destruct (destroy_eq s) as [-> ->].
  destruct (closeWithoutEmit_silent (set_events [] s))
    as (Hsilent & _ & _ & _ & _ & _ & _ & Hev).
  assert (Hsame : trace_of (closeWithoutEmit (set_events [] s)) = trace_of (closeWithoutEmit s))
    by (destruct s as [ar arr kam [?|] [?|] p [q|] [r|] rd evs cs pd ts n]; reflexivity).
  split; [by rewrite Hsame |]. split; [| split; [| by rewrite Hev]].
  - change (emitted (ARemoveAllListeners :: AEmit ConnectionClosed VUndefined [] :: ?t))
      with (ConnectionClosed :: emitted t). by rewrite Hsilent.
  - intros ev.
    change (deliveries ev (ARemoveAllListeners :: AEmit ConnectionClosed VUndefined [] :: ?t))
      with ((if decide (ConnectionClosed = ev) then [] else []) ++ deliveries ev t).
    rewrite (silent_trace_delivers_nothing ev _ Hsilent). by case_decide.
Qed.

(** By contrast, [close()] alone notifies every subscriber of
    [ConnectionClosed]. *)
Lemma close_notifies_subscribers s :
  deliveries ConnectionClosed (trace_of (close s)) = listeners ConnectionClosed s.
Proof.
  destruct (close_eq s) as [_ ->].
  destruct (closeWithoutEmit_silent s) as (Hsilent & _).
  change (deliveries ConnectionClosed (AEmit ConnectionClosed VUndefined ?hs :: ?t))
    with (hs ++ deliveries ConnectionClosed t).
  by rewrite (silent_trace_delivers_nothing _ _ Hsilent), app_nil_r.
Qed.

(** ** Cloning *)

Set Warnings "-clear-no-such-hyp".

Lemma listeners_of_add_listener ev ev' h l :
  listeners_of ev (add_listener ev' h l)
  = if decide (ev' = ev) then listeners_of ev l ++ [h] else listeners_of ev l.
Proof.
  induction l as [|[e hs] l IH]; cbn [add_listener listeners_of].
  - by destruct (decide (ev' = ev)).
  - destruct (decide (e = ev')) as [->|Hne]; cbn [listeners_of].
    + by destruct (decide (ev' = ev)).
    + destruct (decide (e = ev)) as [->|Hne'].
      * by rewrite decide_False by done.
      * exact IH.
Qed.

Lemma listeners_of_absent ev l : ev ∉ l.*1 → listeners_of ev l = [].
Proof.
  induction l as [|[e hs] l IH]; [done |]. cbn. intros Hnot.
  rewrite decide_False by set_solver. apply IH. set_solver.
Qed.

(** The own keys are the names created, in another order. *)
Lemma insert_index_perm ev l : insert_index ev l ≡ₚ ev :: l.
Proof.
  induction l as [|e l IH]; [done |]. cbn [insert_index].
  destruct (_ <=? _)%N; [done |]. rewrite IH. apply Permutation_swap.
Qed.

Lemma ownKeys_perm (created : list event) : ownKeys created ≡ₚ created.
Proof.
  unfold ownKeys. rewrite <- (filter_app_complement (fun ev => is_Some (index_of ev)) created)
    at 3.
  apply Permutation_app_tail.
  induction (filter _ created) as [|ev l IH]; [done |].
  cbn [foldr]. by rewrite insert_index_perm, IH.
Qed.

Lemma eventNames_perm s : eventNames s ≡ₚ (events s).*1.
Proof. apply ownKeys_perm. Qed.

(** The inner loop of [clone()]: the callbacks of one event are appended,
    in order, to what the new stream has for that event. *)
Lemma clone_callbacks ev listener callbacks : ∀ newStream : stream Payload Parser,
  listeners ev (foldl (fun ns callback => state_of (on listener callback ns))
                  newStream callbacks)
  = if decide (listener = ev) then listeners ev newStream ++ callbacks
    else listeners ev newStream.
Proof.
  induction callbacks as [|h hs IH]; intros ns; cbn [foldl].
  - case_decide; by rewrite ?app_nil_r.
  - rewrite IH. unfold listeners at 1 3. cbn. rewrite listeners_of_add_listener.
    case_decide; [by rewrite <- app_assoc | done].
Qed.

(** The outer loop, over event names that are pairwise distinct. *)
Lemma clone_names ev (this : stream Payload Parser) names :
  ∀ newStream : stream Payload Parser,
  NoDup names →
  listeners ev
    (foldl (fun ns listener =>
              foldl (fun ns' callback => state_of (on listener callback ns'))
                    ns (listeners listener this))
       newStream names)
  = listeners ev newStream
      ++ (if decide (ev ∈ names) then listeners ev this else []).
Proof.
  induction names as [|n names IH]; intros ns Hnd; cbn [foldl].
  - rewrite decide_False by set_solver. by rewrite app_nil_r.
  - apply NoDup_cons in Hnd as [Hn Hnd]. rewrite IH by done. rewrite clone_callbacks.
    destruct (decide (n = ev)) as [->|Hne].
    + rewrite decide_False by done. rewrite decide_True by set_solver.
      by rewrite app_nil_r.
    + destruct (decide (ev ∈ names)).
      * by rewrite decide_True by set_solver.
      * by rewrite decide_False by set_solver.
Qed.

(** After the loops of [clone()], the new stream has for each event what
    it had before followed by the original's callbacks, in order. *)
Lemma clone_listeners_spec ev (this newStream : stream Payload Parser) :
  NoDup (eventNames this) →
  listeners ev (clone_listeners this newStream)
  = listeners ev newStream ++ listeners ev this.
Proof.
  intros Hnd. unfold clone_listeners. rewrite clone_names by done.
  case_decide as Hin; [done |].
  unfold listeners at 3. rewrite (listeners_of_absent ev); [done |].
  by rewrite <- (eventNames_perm this).
Qed.

(** The loops only subscribe: but for its registry the new stream stays
    as the factory made it. *)
Lemma clone_listeners_frame (this newStream : stream Payload Parser) :
  set_events [] (clone_listeners this newStream) = set_events [] newStream.
Proof.
  unfold clone_listeners. generalize (eventNames this). intros names. revert newStream.
  induction names as [|n names IH]; intros ns; [done |]. cbn [foldl]. rewrite IH.
  generalize (listeners n this). intros callbacks. revert ns.
  induction callbacks as [|h hs IHh]; intros ns; [done |]. cbn [foldl]. rewrite IHh.
  by destruct ns.
Qed.

(** Subscribing keeps the names of the registry pairwise distinct. *)
Lemma add_listener_names ev h l :
  (add_listener ev h l).*1 = if decide (ev ∈ l.*1) then l.*1 else l.*1 ++ [ev].
Proof.
  induction l as [|[e hs] l IH]; [done |]. cbn [add_listener].
  destruct (decide (e = ev)) as [->|Hne]; cbn [fmap list_fmap fst].
  - by rewrite decide_True by set_solver.
  - rewrite IH. destruct (decide (ev ∈ l.*1)).
    + by rewrite decide_True by set_solver.
    + by rewrite decide_False by set_solver.
Qed.

Lemma on_keeps_names_distinct ev h s :
  NoDup (eventNames s) → NoDup (eventNames (state_of (on ev h s))).
Proof.
  rewrite !eventNames_perm. cbn. rewrite add_listener_names. intros Hnd.
  case_decide as Hin; [done |]. apply NoDup_app.
  split; [done |]. split; [| apply NoDup_singleton].
  intros x Hx Hx'. apply list_elem_of_singleton in Hx'. by subst x.
Qed.

(** The loops of [clone()] in the heap: they read the original and write
    the new instance. *)
Lemma clone_loops (orig copy : nat) (this : stream Payload Parser) names :
  orig ≠ copy →
  ∀ (w : world Payload Parser) newStream,
    w !! orig = Some this →
    w !! copy = Some newStream →
    foldl (fun w' listener =>
             foldl (fun w'' callback => w_on copy listener callback w'')
                   w' (w_listeners orig listener w'))
          w names
    = <[copy := foldl (fun ns listener =>
                         foldl (fun ns' callback => state_of (on listener callback ns'))
                               ns (listeners listener this))
                      newStream names]> w.
Proof.
  intros Hne. induction names as [|n names IH]; intros w ns Horig Hcopy; cbn [foldl].
  - by rewrite insert_id.
  - unfold w_listeners at 2. rewrite Horig.
    assert (Hinner : ∀ callbacks (w0 : world Payload Parser) ns0,
              w0 !! copy = Some ns0 →
              foldl (fun w'' callback => w_on copy n callback w'') w0 callbacks
              = <[copy := foldl (fun ns' callback => state_of (on n callback ns'))
                            ns0 callbacks]> w0).
    { induction callbacks as [|h hs IHh]; intros w0 ns0 Hw0; cbn [foldl].
      - by rewrite insert_id.
      - unfold w_on at 2, w_step. rewrite Hw0. cbn [fst step].
        rewrite (IHh _ (state_of (on n h ns0))) by apply lookup_insert_eq.
        by rewrite insert_insert_eq. }
    rewrite (Hinner _ w ns Hcopy).
    rewrite (IH _ (foldl (fun ns' callback => state_of (on n callback ns'))
                     ns (listeners n this)));
      [by rewrite insert_insert_eq | by rewrite lookup_insert_ne | apply lookup_insert_eq].
Qed.

(** C9. [clone()] returns a new instance [copy], distinct from the
    original [orig], which is left as it was. The new instance is the one
    the factory made, with a session of its own, and on it every handler
    of the original has been registered: for every event it has exactly
    the original's handlers, in the same order, and nothing but its
    registry differs from what the factory made. From then on whatever
    happens to one instance (an event fired, a new subscription, a close)
    leaves the other instance untouched, and every effect, in particular
    every handler call, goes through the bus of the instance it happened
    to. *)
Theorem clone_preserves_subscriptions orig (w : world Payload Parser) this :
  w !! orig = Some this →
  NoDup (eventNames this) →
  ∃ copy newStream,
    clone orig None w = Some (Ok copy, <[copy := newStream]> w)
    ∧ copy ≠ orig
    ∧ w !! copy = None
    ∧ <[copy := newStream]> w !! orig = Some this
    ∧ set_events [] newStream = makeRequestAsStream (requestData this)
    ∧ (∀ ev, listeners ev newStream = listeners ev this)
    ∧ (∀ inp,
         (w_step orig inp (<[copy := newStream]> w)).1 !! copy = Some newStream
         ∧ (w_step orig inp (<[copy := newStream]> w)).2
           = (fun a => (orig, a)) <$> trace_of (step inp this))
    ∧ (∀ inp,
         (w_step copy inp (<[copy := newStream]> w)).1 !! orig = Some this
         ∧ (w_step copy inp (<[copy := newStream]> w)).2
           = (fun a => (copy, a)) <$> trace_of (step inp newStream)).
Proof.
  intros Horig Hnd.
  set (copy := fresh (dom w)).
  set (newStream := clone_listeners this (makeRequestAsStream (requestData this))).
  assert (Hcopy : w !! copy = None) by (apply not_elem_of_dom, is_fresh).
  assert (Hne : copy ≠ orig) by (intros ->; congruence).
  exists copy, newStream. split; [| split; [done |]; split; [done |]].
  - unfold clone. rewrite Horig. unfold w_new. cbn [fst snd]. fold copy.
    unfold w_eventNames. rewrite lookup_insert_ne, Horig by done.
    rewrite (clone_loops orig copy this (eventNames this) (not_eq_sym Hne) _
               (makeRequestAsStream (requestData this)));
      [| by rewrite lookup_insert_ne | apply lookup_insert_eq].
    by rewrite insert_insert_eq.
  - split; [by rewrite lookup_insert_ne |].
    split; [apply clone_listeners_frame |].
    split; [| split].
    + intros ev. unfold newStream. by rewrite clone_listeners_spec.
    + intros inp. unfold w_step. rewrite lookup_insert_ne, Horig by done. cbn [fst snd].
      split; [| done]. rewrite lookup_insert_ne by done. apply lookup_insert_eq.
    + intros inp. unfold w_step. rewrite lookup_insert_eq. cbn [fst snd].
      split; [| done]. rewrite lookup_insert_ne by done. by rewrite lookup_insert_ne.
Qed.

(** * Further properties *)

(** ** Settling a call in flight *)

(** The factory promise of any suspended call settles. *)
Lemma settle_pending s k p rejection :
  pending s !! k = Some p →
  step (Settle k rejection) s = resume p rejection (set_pending (delete k (pending s)) s).
Proof.
  intros Hk. cbv [step bind get modify]. rewrite Hk.
  by destruct (resume _ _ _) as [[? ?] ?].
Qed.

(** [connect(options)] stores the options, then is [reconnect()]. *)
Lemma connect_eq options s :
  connect options s = reconnect FromOutside (configured options s).
Proof.
  destruct options as [[a|] [b|] [c|]],
    s as [ar arr kam rt ka p q r rd evs cs pd ts n];
    unfold connect, configured, bind, modify, ret;
    cbv [opt_autoReconnect opt_autoReconnectRetries opt_keepAliveTimeout default from_option
         id autoReconnect autoReconnectRetries keepAliveTimeoutMs set_autoReconnect
         set_autoReconnectRetries set_keepAliveTimeoutMs retryTimeout keepAliveTimeout
         parser req res requestData events connections pending timeouts timeout_seq];
    match goal with |- context [reconnect ?k ?s0] => by destruct (reconnect k s0) as [[? ?] ?] end.
Qed.

(** Neither half of [reconnect()] touches the configuration. *)
Lemma reconnect_keeps_configuration k s :
  autoReconnect (state_of (reconnect k s)) = autoReconnect s
  ∧ autoReconnectRetries (state_of (reconnect k s)) = autoReconnectRetries s
  ∧ keepAliveTimeoutMs (state_of (reconnect k s)) = keepAliveTimeoutMs s
  ∧ req (state_of (reconnect k s)) = req s
  ∧ res (state_of (reconnect k s)) = res s.
Proof.
  destruct s as [ar arr kam [?|] [?|] p [q|] [r|] rd evs cs pd ts n];
    methods; cbn; branches; done.
Qed.

Lemma resume_keeps_configuration p rejection s :
  autoReconnect (state_of (resume p rejection s)) = autoReconnect s
  ∧ autoReconnectRetries (state_of (resume p rejection s)) = autoReconnectRetries s
  ∧ keepAliveTimeoutMs (state_of (resume p rejection s)) = keepAliveTimeoutMs s.
Proof.
  destruct s as [ar arr [kam|] rt [ka|] ps q r rd evs cs pd ts n],
    p as [b [|retries]], rejection as [e|]; methods; cbn; done.
Qed.

(** X1. A [connect(options)] whose factory promise rejects passes the
    rejection on to its caller and does nothing else: whatever
    [autoReconnect] says, no event is emitted (a session torn down by the
    call is not reported closed either), no timer is set and no retry is
    started. *)
Theorem connect_rejected options s e :
  let x := connect options s in
  let y := step (Settle (length (pending s)) (Some e)) (state_of x) in
  trace_of y = [ARejected e]
  ∧ state_of y = set_pending (pending s) (state_of x)
  ∧ emitted (trace_of x ++ trace_of y) = []
  ∧ attempts (trace_of x ++ trace_of y) = []
  ∧ timeouts_set (trace_of x ++ trace_of y) = []
  ∧ requests (trace_of x ++ trace_of y) = 1%nat
  ∧ autoReconnect (state_of y) = default (autoReconnect s) (opt_autoReconnect options).
Proof.
  intros x y. subst x y. rewrite connect_eq.
  set (s0 := configured options s).
  destruct (reconnect_called FromOutside s0)
    as (Htrace & Hsilent & Hpd & _).
  destruct (reconnect_keeps_configuration FromOutside s0) as (Hauto & _).
  assert (Hpd0 : pending s0 = pending s) by (by destruct s).
  rewrite Hpd0 in Hpd.
  rewrite (settle_last _ _ _ (Some e) Hpd).
  set (x := reconnect FromOutside s0) in *.
  assert (Hy : resume {| initialConnection := bool_decide (req s0 = None);
                         awaited_by := FromOutside |} (Some e)
                 (set_pending (pending s) (state_of x))
               = (Ok tt, set_pending (pending s) (state_of x), [ARejected e])) by done.
  rewrite Hy. cbn [trace_of state_of fst snd].
  split; [done |]. split; [done |].
  rewrite emitted_app, attempts_app, timeouts_set_app, requests_app, Hsilent.
  rewrite Htrace, attempts_app, timeouts_set_app, requests_app.
  assert (Hteardown : attempts (silent_teardown s0) = []
                      ∧ timeouts_set (silent_teardown s0) = []
                      ∧ requests (silent_teardown s0) = 0%nat).
  { unfold silent_teardown.
    destruct (req s0) as [q|]; [| done]. destruct (req_destroyed q s0); [done |].
    by destruct (retryTimeout s0), (keepAliveTimeout s0), (res s0). }
  destruct Hteardown as (-> & -> & ->).
  repeat split; try done.
Qed.

Lemma watchdog_rearmed_observed s :
  emitted (watchdog_rearmed s) = []
  ∧ attempts (watchdog_rearmed s) = []
  ∧ requests (watchdog_rearmed s) = 0%nat
  ∧ timeouts_set (watchdog_rearmed s)
    = match keepAliveTimeoutMs s with
      | Num ms => [(KeepAliveTimeout, ms)]
      | Infinity => []
      end.
Proof. unfold watchdog_rearmed. by destruct (keepAliveTimeout s), (keepAliveTimeoutMs s). Qed.

Lemma silent_teardown_observed s :
  emitted (silent_teardown s) = []
  ∧ attempts (silent_teardown s) = []
  ∧ requests (silent_teardown s) = 0%nat
  ∧ timeouts_set (silent_teardown s) = [].
Proof.
  unfold silent_teardown.
  destruct (req s) as [q|]; [| done]. destruct (req_destroyed q s); [done |].
  by destruct (retryTimeout s), (keepAliveTimeout s), (res s).
Qed.

(** X2. When the connection asked for by [connect(options)] is ready, the
    stream holds the options that were defined and its former settings
    for the others, has emitted [Connected] (or [Reconnected] when it had
    a request before) and nothing else, and the only timer set is the
    watchdog, with the interval now in force; with
    [keepAliveTimeout: 'disable'] no timer is set at all. With
    [autoReconnectRetries: 'unlimited'] the budget is [9999999999]. *)
Theorem connect_resolved options s :
  let x := connect options s in
  let y := step (Settle (length (pending s)) None) (state_of x) in
  let ms := default (keepAliveTimeoutMs s) (opt_keepAliveTimeout options) in
  autoReconnect (state_of y) = default (autoReconnect s) (opt_autoReconnect options)
  ∧ autoReconnectRetries (state_of y)
    = default (autoReconnectRetries s) (opt_autoReconnectRetries options)
  ∧ keepAliveTimeoutMs (state_of y) = ms
  ∧ emitted (trace_of x ++ trace_of y)
    = [if bool_decide (req s = None) then Connected else Reconnected]
  ∧ timeouts_set (trace_of x ++ trace_of y)
    = match ms with Num d => [(KeepAliveTimeout, d)] | Infinity => [] end
  ∧ keepAliveTimeout (state_of y)
    = match ms with Num _ => Some (timeout_seq s) | Infinity => None end
  ∧ (opt_autoReconnectRetries options = Some Infinity →
     safeReconnectRetries (state_of y) = 9999999999).
Proof.
  intros x y ms. subst x y. rewrite connect_eq.
  set (s0 := configured options s).
  destruct (reconnect_called FromOutside s0)
    as (Htrace & Hsilent & Hpd & _ & _ & Hms & Hseq & _).
  destruct (reconnect_keeps_configuration FromOutside s0) as (Hauto & Hretries & _).
  assert (Hs0 : pending s0 = pending s ∧ req s0 = req s ∧ timeout_seq s0 = timeout_seq s
                ∧ keepAliveTimeoutMs s0 = ms
                ∧ autoReconnect s0 = default (autoReconnect s) (opt_autoReconnect options)
                ∧ autoReconnectRetries s0
                  = default (autoReconnectRetries s) (opt_autoReconnectRetries options))
    by (by destruct s).
  destruct Hs0 as (Hpd0 & Hreq0 & Hseq0 & Hms0 & Hauto0 & Hretries0).
  rewrite Hpd0 in Hpd. rewrite (settle_last _ _ _ None Hpd).
  set (x := reconnect FromOutside s0) in *.
  set (s1 := set_pending (pending s) (state_of x)).
  assert (Hs1 : keepAliveTimeoutMs s1 = ms ∧ timeout_seq s1 = timeout_seq s
                ∧ autoReconnect s1 = autoReconnect s0
                ∧ autoReconnectRetries s1 = autoReconnectRetries s0).
  { unfold s1. rewrite <- Hms0, <- Hseq0, <- Hms, <- Hseq, <- Hauto, <- Hretries.
    by destruct (state_of x). }
  destruct Hs1 as (Hms1 & Hseq1 & Hauto1 & Hretries1).
  destruct (reconnect_resolved (bool_decide (req s0 = None)) FromOutside s1)
    as (Htrace' & _ & _ & _ & _ & Hka' & _).
  destruct (resume_keeps_configuration
              {| initialConnection := bool_decide (req s0 = None);
                 awaited_by := FromOutside |} None s1) as (Hauto' & Hretries' & Hms').
  destruct (watchdog_rearmed_observed s1) as (Hw1 & _ & _ & Hw2).
  destruct (silent_teardown_observed s0) as (_ & _ & _ & Ht2).
  rewrite Hauto', Hretries', Hms', Hka', Hauto1, Hretries1, Hms1, Hauto0, Hretries0.
  split; [done |]. split; [done |]. split; [done |].
  split; [| split; [| split]].
  - rewrite emitted_app, Hsilent, Htrace', emitted_app, Hw1, Hreq0.
    by destruct (bool_decide (req s = None)).
  - rewrite timeouts_set_app, Htrace, Htrace', !timeouts_set_app, Ht2, Hw2, Hms1.
    by destruct ms.
  - unfold watchdog_handle. rewrite Hms1, Hseq1. by destruct ms.
  - intros Hunlimited. unfold safeReconnectRetries.
    by rewrite Hretries', Hretries1, Hretries0, Hunlimited.
Qed.

(** ** Timers the stream keeps track of *)

Lemma timeouts_tracked_intro s :
  Forall (fun x => retryTimeout s = Some (timeout_id x)
                   ∨ keepAliveTimeout s = Some (timeout_id x)) (timeouts s) →
  timeouts_tracked s = true.
Proof.
  intros Hs. unfold timeouts_tracked. apply Is_true_true, forallb_True.
  eapply Forall_impl; [exact Hs |]. intros x Hx. by apply bool_decide_pack.
Qed.

Lemma timeouts_tracked_nil s : timeouts s = [] → timeouts_tracked s = true.
Proof. unfold timeouts_tracked. by intros ->. Qed.

Lemma timeouts_tracked_ext s s' :
  retryTimeout s' = retryTimeout s → keepAliveTimeout s' = keepAliveTimeout s →
  timeouts s' = timeouts s → timeouts_tracked s' = timeouts_tracked s.
Proof. unfold timeouts_tracked. by intros -> -> ->. Qed.

(** Rearming the watchdog keeps the timers tracked. *)
Lemma timeouts_tracked_rearmed s s' :
  timeouts_tracked s = true →
  retryTimeout s' = retryTimeout s →
  keepAliveTimeout s' = watchdog_handle s →
  timeouts s' = watchdog_timeouts s →
  timeouts_tracked s' = true.
Proof.
  intros Hs%timeouts_tracked_Forall Hrt Hka Hts. apply timeouts_tracked_intro.
  rewrite Hrt, Hka, Hts. unfold watchdog_timeouts, watchdog_handle.
  rewrite Forall_forall in Hs. apply Forall_app. split.
  - apply Forall_forall. intros x Hx. left.
    destruct (keepAliveTimeout s) as [ka|]; cbn [cleared] in Hx.
    + apply list_elem_of_filter in Hx as [Hne Hx].
      destruct (Hs x Hx) as [? | [= ->]]; [done | by destruct Hne].
    + by destruct (Hs x Hx).
  - destruct (keepAliveTimeoutMs s); [| done]. apply Forall_singleton. by right.
Qed.

(** Time passing for the timers keeps them tracked. *)
Lemma timeouts_tracked_pass ms s :
  timeouts_tracked s = true → timeouts_tracked (pass ms s) = true.
Proof.
  intros Hs%timeouts_tracked_Forall. apply timeouts_tracked_intro.
  rewrite Forall_forall in Hs. apply Forall_forall.
  destruct s; cbn in *. intros x (y & -> & Hy)%list_elem_of_fmap. cbn. by apply Hs.
Qed.

Lemma elapse_upto_tracked fuel : ∀ ms s,
  timeouts_tracked s = true → timeouts_tracked (state_of (elapse_upto fuel ms s)) = true.
Proof.
  induction fuel as [|fuel IH]; intros ms s Hs; [by apply timeouts_tracked_pass |].
  destruct (earliest (timeouts s)) as [t|] eqn:Ht.
  - destruct (Z.leb_spec (remaining t) ms) as [Hdue|Hlater].
    + rewrite (elapse_upto_expires fuel s ms t Ht Hdue).
      set (s0 := expire t (pass (remaining t) s)).
      destruct (call_schedules_nothing (callback_of t) s0) as [Hok Hts].
      rewrite (state_of_bind _ _ s0 tt Hok). apply IH, timeouts_tracked_nil.
      rewrite Hts.
      replace (keepAliveTimeout s0) with (keepAliveTimeout s) by (by destruct s).
      replace (retryTimeout s0) with (retryTimeout s) by (by destruct s).
      by apply timeouts_tracked_expired.
    + cbn [elapse_upto]. unfold bind, get. rewrite Ht, (proj2 (Z.leb_gt _ _) Hlater).
      by apply timeouts_tracked_pass.
  - cbn [elapse_upto]. unfold bind, get. by rewrite Ht.
Qed.

(** Where [reconnect()] up to its [await] leaves the timers: all cleared
    when it tears a session down, as they were otherwise. *)
Lemma reconnect_timers k s :
  let x := reconnect k s in
  (timeouts (state_of x)
   = cleared (keepAliveTimeout s) (cleared (retryTimeout s) (timeouts s))
   ∧ retryTimeout (state_of x) = None ∧ keepAliveTimeout (state_of x) = None)
  ∨ (timeouts (state_of x) = timeouts s
     ∧ retryTimeout (state_of x) = retryTimeout s
     ∧ keepAliveTimeout (state_of x) = keepAliveTimeout s).
Proof.
  destruct s as [ar arr kam [?|] [?|] p [q|] [r|] rd evs cs pd ts n];
    methods; cbn; branches; auto.
Qed.

(** Where a settled factory promise leaves the retry handle. *)
Lemma resume_resolved_retryTimeout p s :
  retryTimeout (state_of (resume p None s)) = retryTimeout s.
Proof.
  destruct s as [ar arr [kam|] rt [ka|] ps q r rd evs cs pd ts n], p as [b [|retries]];
    methods; cbn; done.
Qed.

(** The [catch] block of [onConnectionError(retries)] for any suspended
    call: the failure is reported by number, without its cause, and the
    retry timer scheduled. *)
Lemma resume_rejected b retries e s :
  let y := resume {| initialConnection := b; awaited_by := FromRetry retries |} (Some e) s in
  let n := safeReconnectRetries s - retries in
  trace_of y
  = [AEmit ReconnectError (VNumber n) (listeners ReconnectError s);
     AEmit Error
       (VStreamError ReconnectError
          (VError ("Reconnect error - " +:+ pretty n +:+ " attempts made yet.")))
       (listeners Error s);
     ASetTimeout RetryTimeout (nextRetry (n + 1))]
  ∧ retryTimeout (state_of y) = Some (timeout_seq s)
  ∧ keepAliveTimeout (state_of y) = keepAliveTimeout s
  ∧ timeouts (state_of y)
    = timeouts s ++ [{| timeout_id := timeout_seq s;
                        remaining := timeout_delay (nextRetry (n + 1));
                        callback_of := OnRetryTimeout retries |}]
  ∧ pending (state_of y) = pending s
  ∧ connections (state_of y) = connections s
  ∧ req (state_of y) = req s.
Proof.
  destruct s as [ar arr kam rt ka p q r rd evs cs pd ts n]. methods. cbn. done.
Qed.

(** One input keeps the timers tracked unless it overwrites a retry
    handle. *)
Lemma step_keeps_timeouts_tracked i s :
  timeouts_tracked s = true →
  overwrites_retry_handle i s = false →
  timeouts_tracked (state_of (step i s)) = true.
Proof.
  intros Hs Hi.
  assert (Hcleared : ∀ y : result Payload unit * stream Payload Parser * list (action Payload),
            timeouts (state_of y)
            = cleared (keepAliveTimeout s) (cleared (retryTimeout s) (timeouts s)) →
            timeouts_tracked (state_of y) = true).
  { intros y Hy. apply timeouts_tracked_nil. by rewrite Hy, timeouts_tracked_cleared. }
  assert (Hreconnect : ∀ k s0, timeouts_tracked s0 = true →
            timeouts_tracked (state_of (reconnect k s0)) = true).
  { intros k s0 Hs0. destruct (reconnect_timers k s0) as [(Hts & _) | (Hts & Hrt & Hka)].
    - apply timeouts_tracked_nil. by rewrite Hts, timeouts_tracked_cleared.
    - by rewrite (timeouts_tracked_ext s0). }
  assert (Hfailed : ∀ err, timeouts_tracked (state_of (errorHandler err s)) = true).
  { intros err. apply Hcleared.
    destruct (onConnectionError_cases s None) as (_ & _ & Hts & _).
    unfold errorHandler, bind, emit, state_of in *.
    by destruct (onConnectionError None s) as [[? ?] ?]. }
  destruct i as [options| | | |ev h|c err|c err|c|c chunk|c|k rejection|ms]; cbn [step].
  - rewrite connect_eq. apply Hreconnect.
    rewrite (timeouts_tracked_ext s); [done | by destruct s ..].
  - by apply Hreconnect.
  - apply Hcleared. by destruct (close_cancels_tracked_timers false s) as (_ & _ & ? & _).
  - apply Hcleared. by destruct (close_cancels_tracked_timers true s) as (_ & _ & ? & _).
  - by rewrite (timeouts_tracked_ext s).
  - unfold bind, get. destruct (has_req_listeners c s); [| done].
    cbn [when]. specialize (Hfailed err). unfold state_of in *.
    by destruct (errorHandler err s) as [[[] ?] ?].
  - unfold bind, get. destruct (has_res_listeners c s); [| done].
    cbn [when]. specialize (Hfailed err). unfold state_of in *.
    by destruct (errorHandler err s) as [[[] ?] ?].
  - unfold bind, get. destruct (has_res_listeners c s); [| done].
    cbn [when]. specialize (Hfailed "Connection closed by Twitter."). unfold state_of in *.
    by destruct (errorHandler _ s) as [[[] ?] ?].
  - unfold bind, get. destruct (has_res_listeners c s); [| done]. cbn [when].
    destruct (resetKeepAliveTimeout_eq s) as (Hreset & Hka & Hts & _).
    assert (Hrt : retryTimeout (state_of (resetKeepAliveTimeout s)) = retryTimeout s)
      by (destruct s as [ar arr [kam|] rt [ka|] p q r rd evs cs pd ts n]; done).
    apply (timeouts_tracked_rearmed s); [done | | |];
      unfold onData, bind; rewrite Hreset;
      (destruct (decide (chunk = CRLF)); [done | by rewrite push_eq]).
  - by rewrite (timeouts_tracked_ext s).
  - unfold bind, get. destruct (pending s !! k) as [p|] eqn:Hk; [| done].
    pose proof (settle_pending s k p rejection Hk) as Hstep.
    cbn [step] in Hstep. unfold bind, get in Hstep. rewrite Hk in Hstep. rewrite Hstep.
    set (s0 := set_pending (delete k (pending s)) s).
    assert (Hs0 : timeouts_tracked s0 = true)
      by (by rewrite (timeouts_tracked_ext s)).
    destruct p as [b k0], rejection as [e|].
    + destruct k0 as [|retries]; [done |].
      cbn [overwrites_retry_handle] in Hi. rewrite Hk in Hi. cbn in Hi.
      destruct (retryTimeout s) as [|] eqn:Hrt; [done |].
      destruct (resume_rejected b retries e s0) as (_ & Hrt' & Hka' & Hts' & _).
      apply timeouts_tracked_intro. rewrite Hrt', Hka', Hts'.
      apply timeouts_tracked_Forall in Hs0. rewrite Forall_forall in Hs0.
      apply Forall_app. split; [| apply Forall_singleton; by left].
      apply Forall_forall. intros x Hx. right.
      destruct (Hs0 x Hx) as [Hx' | Hx']; [| done].
      replace (retryTimeout s0) with (retryTimeout s) in Hx' by done. congruence.
    + destruct (reconnect_resolved b k0 s0) as (_ & _ & _ & _ & _ & Hka' & Hts' & _).
      apply (timeouts_tracked_rearmed s0); [done | | done | done].
      apply resume_resolved_retryTimeout.
  - unfold elapse. rewrite (state_of_bind get _ s s eq_refl). by apply elapse_upto_tracked.
Qed.

Lemma run_keeps_timeouts_tracked inputs : ∀ s,
  timeouts_tracked s = true →
  keeps_retry_handles inputs s = true →
  timeouts_tracked (state_of (run inputs s)) = true.
Proof.
  induction inputs as [|i inputs IH]; intros s Hs Hkeeps; [done |].
  rewrite state_of_run_cons. cbn [keeps_retry_handles] in Hkeeps.
  apply andb_prop in Hkeeps as [Hi%negb_true_iff Hkeeps].
  apply IH; [by apply step_keeps_timeouts_tracked | done].
Qed.

(** X3. As long as no failed reconnect attempt stores its retry handle
    over one that is still there, the stream holds the handle of every
    timer it has scheduled; [close()] or [destroy()] then clears them
    all: no timer is left, and however much time passes afterwards the
    stream emits nothing and does not change. *)
Theorem close_cancels_every_tracked_timer (destroying : bool) inputs s (elapsed : list Z) :
  timeouts_tracked s = true →
  keeps_retry_handles inputs s = true →
  let s1 := state_of (run inputs s) in
  let s2 := state_of (step (if destroying then Call_destroy else Call_close) s1) in
  timeouts_tracked s1 = true
  ∧ timeouts s2 = []
  ∧ retryTimeout s2 = None
  ∧ keepAliveTimeout s2 = None
  ∧ run (Elapse <$> elapsed) s2 = (Ok tt, s2, []).
Proof.
  intros Hs Hkeeps s1 s2.
  pose proof (run_keeps_timeouts_tracked inputs s Hs Hkeeps) as Hs1. fold s1 in Hs1.
  destruct (close_cancels_tracked_timers destroying s1) as (Hrt & Hka & Hts & Hidle & _).
  fold s2 in Hrt, Hka, Hts, Hidle.
  split; [done |]. split; [by rewrite Hts, timeouts_tracked_cleared |].
  split; [done |]. split; [done |]. by apply Hidle.
Qed.

(** ** After closing *)

(** X4. Once [close()] or [destroy()] has returned, the session it ended
    no longer reaches the stream: an error on its request, an error or a
    close on its response and any chunk of data are ignored, with nothing
    emitted and nothing changed. *)
Theorem closed_session_is_ignored (destroying : bool) s q r :
  req s = Some q →
  res s = Some r →
  let s1 := state_of (step (if destroying then Call_destroy else Call_close) s) in
  (∀ err, step (ReqError q err) s1 = (Ok tt, s1, []))
  ∧ (∀ err, step (ResError r err) s1 = (Ok tt, s1, []))
  ∧ step (ResClose r) s1 = (Ok tt, s1, [])
  ∧ (∀ chunk, step (ResData r chunk) s1 = (Ok tt, s1, [])).
Proof.
  intros Hq Hr s1.
  destruct (close_cancels_tracked_timers destroying s) as (_ & _ & _ & _ & Hreq & Hres).
  destruct (Hreq q Hq) as (_ & Hoff & _). specialize (Hres r Hr).
  fold s1 in Hoff, Hres.
  repeat split; intros; cbv [step bind get when]; by rewrite ?Hoff, ?Hres.
Qed.

(** What [close()] and [destroy()] leave alone. *)
Lemma close_frame (destroying : bool) s :
  let s1 := state_of (step (if destroying then Call_destroy else Call_close) s) in
  pending s1 = pending s
  ∧ length (connections s1) = length (connections s)
  ∧ timeout_seq s1 = timeout_seq s
  ∧ keepAliveTimeoutMs s1 = keepAliveTimeoutMs s
  ∧ autoReconnect s1 = autoReconnect s
  ∧ autoReconnectRetries s1 = autoReconnectRetries s
  ∧ parser s1 = parser s
  ∧ req s1 = req s
  ∧ res s1 = res s.
Proof.
  destruct destroying, s as [ar arr kam [?|] [?|] p [q|] [r|] rd evs cs pd ts n];
    methods; cbn; rewrite ?length_alter; done.
Qed.

(** X5. [close()] and [destroy()] do not call off a [reconnect()] that
    is waiting for the connection factory. When the factory then delivers,
    the stream announces the connection, binds its listeners to the new
    pair and arms the watchdog: it is live again. When the factory fails
    an attempt made by the retry logic, the failure is reported and the
    next retry scheduled, as if the stream had not been closed. *)
Theorem close_keeps_reconnect_in_flight (destroying : bool) s k p :
  pending s !! k = Some p →
  let s1 := state_of (step (if destroying then Call_destroy else Call_close) s) in
  let c := length (connections s) in
  pending s1 !! k = Some p
  ∧ (let y := step (Settle k None) s1 in
     emitted (trace_of y) = [if initialConnection p then Connected else Reconnected]
     ∧ req (state_of y) = Some c
     ∧ res (state_of y) = Some c
     ∧ has_req_listeners c (state_of y) = true
     ∧ has_res_listeners c (state_of y) = true
     ∧ timeouts_set (trace_of y)
       = match keepAliveTimeoutMs s with
         | Num ms => [(KeepAliveTimeout, ms)]
         | Infinity => []
         end)
  ∧ (∀ retries e, awaited_by p = FromRetry retries →
     let y := step (Settle k (Some e)) s1 in
     emitted (trace_of y) = [ReconnectError; Error]
     ∧ timeouts_set (trace_of y)
       = [(RetryTimeout, nextRetry (safeReconnectRetries s - retries + 1))]
     ∧ retryTimeout (state_of y) = Some (timeout_seq s)).
Proof.
  intros Hk s1 c.
  destruct (close_frame destroying s)
    as (Hpd & Hlen & Hseq & Hms & _ & Hretries & _).
  fold s1 in Hpd, Hlen, Hseq, Hms, Hretries.
  assert (Hk1 : pending s1 !! k = Some p) by (by rewrite Hpd).
  split; [done |].
  set (s0 := set_pending (delete k (pending s1)) s1).
  assert (Hs0 : length (connections s0) = c ∧ timeout_seq s0 = timeout_seq s
                ∧ keepAliveTimeoutMs s0 = keepAliveTimeoutMs s
                ∧ safeReconnectRetries s0 = safeReconnectRetries s).
  { unfold s0, c, safeReconnectRetries. rewrite <- Hlen, <- Hseq, <- Hms, <- Hretries.
    by destruct s1. }
  destruct Hs0 as (Hlen0 & Hseq0 & Hms0 & Hsafe0).
  split.
  - cbv zeta. rewrite (settle_pending s1 k p None Hk1). fold s0.
    destruct p as [b k0].
    destruct (reconnect_resolved b k0 s0) as (Htrace & _ & Hreq & Hres & Hcs & _).
    destruct (watchdog_rearmed_observed s0) as (Hw1 & _ & _ & Hw2).
    rewrite Hlen0 in *.
    rewrite Htrace, emitted_app, timeouts_set_app, Hw1, Hw2, Hreq, Hres, Hms0.
    unfold has_req_listeners, has_res_listeners. rewrite Hcs.
    rewrite lookup_app_r by lia. rewrite Hlen0, Nat.sub_diag.
    cbn. by destruct b.
  - intros retries e Hretry. cbv zeta. rewrite (settle_pending s1 k p (Some e) Hk1). fold s0.
    destruct p as [b k0]. cbn in Hretry. subst k0.
    destruct (resume_rejected b retries e s0) as (Htrace & Hrt & _).
    rewrite Htrace, Hrt, Hsafe0, Hseq0. done.
Qed.

(** X6. [close()] is not guarded against a second call: calling it again
    notifies the subscribers of [ConnectionClosed] once more and goes
    through the teardown of the same handles again, clearing no timer and
    leaving the stream as the first call left it. *)
Theorem close_again s :
  let s1 := state_of (close s) in
  state_of (close s1) = s1
  ∧ trace_of (close s1)
    = [AEmit ConnectionClosed VUndefined (listeners ConnectionClosed s)]
        ++ match res s with Some r => [AResRemoveAllListeners r] | None => [] end
        ++ match req s with
           | Some q => [AReqRemoveAllListeners q; AReqDestroy q]
           | None => []
           end.
Proof.
  destruct s as [ar arr kam [?|] [?|] p [q|] [r|] rd evs cs pd ts n];
    methods; cbn; (split; [| done]);
    cbv [set_connections set_keepAliveTimeout set_retryTimeout set_timeouts
         autoReconnect autoReconnectRetries keepAliveTimeoutMs retryTimeout
         keepAliveTimeout parser req res requestData events connections pending
         timeouts timeout_seq];
    f_equal; try done;
    apply list_eq; intros j; rewrite !list_lookup_alter;
    repeat case_decide; subst; try done;
    match goal with |- context [cs !! ?i] => by destruct (cs !! i) as [[? ? ?]|] end.
Qed.

(** ** A failing session *)

(** The watchdog, first of the tracked timers to be due, expires. *)
Lemma watchdog_expires s ms t :
  timeouts_tracked s = true →
  earliest (timeouts s) = Some t →
  callback_of t = OnKeepAliveTimeout →
  remaining t ≤ ms →
  let s0 := expire t (pass (remaining t) s) in
  state_of (step (Elapse ms) s) = state_of (onConnectionError None s0)
  ∧ trace_of (step (Elapse ms) s)
    = AEmit ConnectionLost VUndefined (listeners ConnectionLost s)
        :: trace_of (onConnectionError None s0).
Proof.
  intros Htracked Ht Hcb Hdue s0.
  destruct (elapse_expires s ms t Ht Hdue) as [fuel Hstep]. fold s0 in Hstep.
  assert (Hidle : timeouts (state_of (onConnectionError None s0)) = []).
  { destruct (onConnectionError_cases s0 None) as (_ & _ & -> & _).
    replace (keepAliveTimeout s0) with (keepAliveTimeout s) by (by destruct s).
    replace (retryTimeout s0) with (retryTimeout s) by (by destruct s).
    by apply timeouts_tracked_expired. }
  assert (Hev : listeners ConnectionLost s0 = listeners ConnectionLost s) by (by destruct s).
  rewrite Hstep, Hcb. cbn [call]. unfold onKeepAliveTimeout, bind, emit, state_of, trace_of.
  rewrite Hev.
  pose proof (onConnectionError_ok None s0) as Hok.
  destruct (onConnectionError None s0) as [[r s1] tr1]. simpl in Hok, Hidle. subst r.
  rewrite elapse_upto_idle by done. cbn [fst snd app]. by rewrite app_nil_r.
Qed.

(** With the request not yet destroyed, handling a connection failure
    takes the stream's listeners off the pair. *)
Lemma onConnectionError_detaches arg s q r :
  req s = Some q → res s = Some r → req_destroyed q s = false →
  has_req_listeners q (state_of (onConnectionError arg s)) = false
  ∧ has_res_listeners r (state_of (onConnectionError arg s)) = false.
Proof.
  destruct s as [[] arr kam [?|] [?|] p [q'|] [r'|] rd evs cs pd ts n];
    intros [= <-] [= <-] Hd; methods; cbn; rewrite Hd; cbn; branches;
    rewrite !list_lookup_alter; repeat case_decide; subst; try done;
    repeat match goal with
           | |- context [cs !! ?i] => destruct (cs !! i) as [[? ? ?]|]
           end; done.
Qed.

(** With the request already destroyed, it leaves them where they are. *)
Lemma onConnectionError_skips_teardown arg s q :
  req s = Some q → req_destroyed q s = true →
  connections (state_of (onConnectionError arg s)) = connections s
  ∧ req (state_of (onConnectionError arg s)) = Some q.
Proof.
  destruct s as [[] arr kam [?|] [?|] p [q'|] r rd evs cs pd ts n];
    intros [= <-] Hd; unfold req_destroyed in Hd; cbn in Hd;
    methods; unfold req_destroyed; cbn;
    destruct (cs !! q') as [[[] ? ?]|] eqn:Hq; try discriminate;
    cbn; branches; rewrite ?Hq; cbn; done.
Qed.

Lemma errorHandler_eq err s :
  state_of (errorHandler err s) = state_of (onConnectionError None s)
  ∧ trace_of (errorHandler err s)
    = AEmit ConnectionError (VError err) (listeners ConnectionError s)
        :: AEmit Error (VStreamError ConnectionError (VError err)) (listeners Error s)
        :: trace_of (onConnectionError None s).
Proof.
  unfold errorHandler, bind, emit, state_of, trace_of.
  by destruct (onConnectionError None s) as [[? ?] ?].
Qed.

(** The state a connection-failed signal leaves is the one
    [onConnectionError()] leaves, from the state it is called in. *)
Lemma connection_failed_state i s :
  connection_failed i s = true →
  ∃ s0, state_of (step i s) = state_of (onConnectionError None s0)
        ∧ req s0 = req s ∧ res s0 = res s ∧ connections s0 = connections s.
Proof.
  intros Hi. destruct i as [| | | | |c err|c err|c| | | |ms]; try discriminate; simpl in Hi.
  1-3: exists s; split; [| done]; cbv [step bind get when]; rewrite Hi;
    match goal with
    | |- context [errorHandler ?e ?s0] =>
        destruct (errorHandler_eq e s0) as [<- _]; unfold state_of;
        by destruct (errorHandler e s0) as [[[] ?] ?]
    end.
  apply andb_prop in Hi as [Htracked Hdue].
  destruct (earliest (timeouts s)) as [t|] eqn:Ht; [| done].
  destruct (callback_of t) eqn:Hcb; [| done]. apply Z.leb_le in Hdue.
  destruct (watchdog_expires s ms t Htracked Ht Hcb Hdue) as [Hstate _].
  eexists. split; [exact Hstate | by destruct s].
Qed.

(** X7. A connection failure is reported once per session: when a
    connection-failed signal (an error or a close of a pair the stream
    listens to, or the watchdog) is handled while the request the stream
    points to is not destroyed yet, the stream is detached from its pair,
    so whatever the pair emits afterwards (errors, close, data) is
    ignored, with nothing emitted and nothing changed. *)
Theorem failing_session_reported_once i j s q r :
  req s = Some q →
  res s = Some r →
  req_destroyed q s = false →
  connection_failed i s = true →
  of_session q r j = true →
  step j (state_of (step i s)) = (Ok tt, state_of (step i s), []).
Proof.
  intros Hq Hr Hd Hi Hj.
  destruct (connection_failed_state i s Hi) as (s0 & Hstate & Hq0 & Hr0 & Hcs0).
  rewrite <- Hq0 in Hq. rewrite <- Hr0 in Hr.
  assert (Hd0 : req_destroyed q s0 = false) by (unfold req_destroyed; by rewrite Hcs0).
  destruct (onConnectionError_detaches None s0 q r Hq Hr Hd0) as [Hoffq Hoffr].
  rewrite <- Hstate in Hoffq, Hoffr. set (s1 := state_of (step i s)) in *.
  destruct j; try discriminate; cbn in Hj; apply bool_decide_eq_true in Hj as ->;
    cbv [step bind get when]; by rewrite ?Hoffq, ?Hoffr.
Qed.

(** X8. When the request is already destroyed as a connection failure is
    handled, the teardown is skipped and the stream's listeners stay on
    the pair: a further error or close of the pair is handled as a
    failure of its own. With [autoReconnect] and a positive budget, each
    of the two signals starts a retry chain at attempt 0 and asks the
    factory for a connection. *)
Theorem destroyed_request_keeps_listeners i s q :
  req s = Some q →
  req_destroyed q s = true →
  connection_failed i s = true →
  let s1 := state_of (step i s) in
  connections s1 = connections s
  ∧ req s1 = Some q
  ∧ (∀ j, (∀ ms, j ≠ Elapse ms) → connection_failed j s1 = connection_failed j s)
  ∧ (autoReconnect s = true → 0 < safeReconnectRetries s →
     ∀ j, (∀ ms, j ≠ Elapse ms) → connection_failed j s = true →
       attempts (trace_of (run [i; j] s)) = [0; 0]
       ∧ requests (trace_of (run [i; j] s)) = 2%nat).
Proof.
  intros Hq Hd Hi s1.
  destruct (connection_failed_state i s Hi) as (s0 & Hstate & Hq0 & _ & Hcs0).
  rewrite <- Hq0 in Hq.
  assert (Hd0 : req_destroyed q s0 = true) by (unfold req_destroyed; by rewrite Hcs0).
  destruct (onConnectionError_skips_teardown None s0 q Hq Hd0) as [Hcs Hreq].
  rewrite <- Hstate in Hcs, Hreq. fold s1 in Hcs, Hreq. rewrite Hcs0 in Hcs.
  assert (Hsame : ∀ j, (∀ ms, j ≠ Elapse ms) →
                       connection_failed j s1 = connection_failed j s).
  { intros j Hj. destruct j; try done;
      [unfold connection_failed, has_req_listeners
      |unfold connection_failed, has_res_listeners ..
      |by destruct (Hj ms)]; by rewrite Hcs. }
  split; [done |]. split; [done |]. split; [done |].
  intros Hauto Hpos j Hj Hfailed.
  destruct (connection_failed_cases i s Hi) as (_ & _ & _ & _ & Hauto1 & Hretries1 & _ & Hcase).
  fold s1 in Hauto1, Hretries1.
  rewrite Hauto in Hcase. cbn [negb] in Hcase.
  rewrite (proj2 (Z.leb_gt _ _) Hpos) in Hcase. destruct Hcase as (_ & Hatt & Hreqs & _).
  assert (Hsafe1 : safeReconnectRetries s1 = safeReconnectRetries s)
    by (unfold safeReconnectRetries; by rewrite Hretries1).
  rewrite <- (Hsame j Hj) in Hfailed.
  destruct (connection_failed_cases j s1 Hfailed) as (_ & _ & _ & _ & _ & _ & _ & Hcase).
  rewrite Hauto1, Hauto in Hcase. cbn [negb] in Hcase. rewrite Hsafe1 in Hcase.
  rewrite (proj2 (Z.leb_gt _ _) Hpos) in Hcase. destruct Hcase as (_ & Hatt' & Hreqs' & _).
  rewrite !trace_of_run_cons, trace_of_run_nil, app_nil_r, attempts_app, requests_app.
  fold s1. rewrite Hatt, Hatt', Hreqs, Hreqs', Z.sub_diag. done.
Qed.

(** ** The watchdog *)

Lemma handled_outcome announcement s x :
  handled announcement (safeReconnectRetries s) s x →
  emitted (trace_of x) = announcement ++ outcome s.
Proof.
  intros (_ & _ & _ & _ & _ & _ & _ & Hcase). unfold outcome.
  destruct (negb (autoReconnect s)); [by destruct Hcase |].
  destruct (safeReconnectRetries s <=? 0); by destruct Hcase.
Qed.

(** The watchdog is the only timer scheduled. *)
Lemma lone_watchdog s t d :
  timeouts s = [t] →
  callback_of t = OnKeepAliveTimeout →
  keepAliveTimeout s = Some (timeout_id t) →
  (d < remaining t → step (Elapse d) s = (Ok tt, pass d s, []))
  ∧ (remaining t ≤ d → emitted (trace_of (step (Elapse d) s)) = ConnectionLost :: outcome s).
Proof.
  intros Hts Hcb Hka. split.
  - intros Hd. cbn [step]. unfold elapse, bind, get. rewrite Hts. cbn [length elapse_upto].
    unfold bind, get. rewrite Hts. cbn [earliest foldr].
    by rewrite (proj2 (Z.leb_gt _ _) Hd).
  - intros Hd.
    assert (Hfailed : connection_failed (Elapse d) s = true).
    { unfold connection_failed, timeouts_tracked. rewrite Hts. cbn [forallb earliest foldr].
      rewrite Hcb, Hka, (proj2 (Z.leb_le _ _) Hd).
      rewrite bool_decide_eq_true_2 by (by right). done. }
    by rewrite (handled_outcome _ _ _ (connection_failed_cases _ s Hfailed)).
Qed.

(** Where a chunk of data leaves timers and configuration. *)
Lemma onData_timers c chunk s :
  has_res_listeners c s = true →
  let s1 := state_of (step (ResData c chunk) s) in
  retryTimeout s1 = retryTimeout s
  ∧ keepAliveTimeout s1 = watchdog_handle s
  ∧ timeouts s1 = watchdog_timeouts s
  ∧ autoReconnect s1 = autoReconnect s
  ∧ autoReconnectRetries s1 = autoReconnectRetries s.
Proof.
  intros Hc s1. subst s1. cbv [step bind get when]. rewrite Hc. cbn [when].
  destruct (resetKeepAliveTimeout_eq s) as (Hreset & Hka & Hts & _).
  assert (Hrest : retryTimeout (state_of (resetKeepAliveTimeout s)) = retryTimeout s
                  ∧ autoReconnect (state_of (resetKeepAliveTimeout s)) = autoReconnect s
                  ∧ autoReconnectRetries (state_of (resetKeepAliveTimeout s))
                    = autoReconnectRetries s)
    by (destruct s as [ar arr [kam|] rt [ka|] p q r rd evs cs pd ts n]; done).
  destruct Hrest as (Hrt & Hauto & Hretries).
  unfold onData, bind. rewrite Hreset.
  destruct (decide (chunk = CRLF)); [done | by rewrite push_eq].
Qed.

(** X10. After a chunk of data the watchdog waits for its full interval:
    on a stream that tracks its timers and has no retry pending, no lapse
    of time shorter than [keepAliveTimeoutMs] makes the stream emit
    anything; once the interval has passed without data,
    [ConnectionLost] is emitted, followed by what the reconnect policy
    says ([ConnectionClosed], the exhausted budget, or attempt 0). *)
Theorem watchdog_waits_full_interval c chunk s ms :
  has_res_listeners c s = true →
  timeouts_tracked s = true →
  retryTimeout s = None →
  keepAliveTimeoutMs s = Num ms →
  1 ≤ ms ≤ 2147483647 →
  let s1 := state_of (step (ResData c chunk) s) in
  (∀ d, d < ms → trace_of (step (Elapse d) s1) = [])
  ∧ (∀ d, ms ≤ d →
       emitted (trace_of (step (Elapse d) s1)) = ConnectionLost :: outcome s).
Proof.
  intros Hc Htracked Hrt Hms Hrange s1.
  destruct (onData_timers c chunk s Hc) as (_ & Hka & Hts & Hauto & Hretries).
  fold s1 in Hka, Hts, Hauto, Hretries.
  assert (Hdelay : timeout_delay ms = ms).
  { unfold timeout_delay. destruct (ms <? 1) eqn:E1; [lia |].
    destruct (2147483647 <? ms) eqn:E2; [lia | done]. }
  assert (Hnone : cleared (keepAliveTimeout s) (timeouts s) = []).
  { rewrite <- (timeouts_tracked_cleared s Htracked). by rewrite Hrt. }
  unfold watchdog_timeouts in Hts. unfold watchdog_handle in Hka.
  rewrite Hms, Hnone, Hdelay in Hts. rewrite Hms in Hka. cbn [app] in Hts.
  assert (Hout : outcome s1 = outcome s)
    by (unfold outcome, safeReconnectRetries; by rewrite Hauto, Hretries).
  split; intros d Hd.
  - by rewrite (proj1 (lone_watchdog s1 _ d Hts eq_refl Hka)).
  - by rewrite (proj2 (lone_watchdog s1 _ d Hts eq_refl Hka)), Hout.
Qed.

(** X13. The constructor. Given a request and its response, the new
    stream has attached its listeners to both and armed the watchdog for
    two minutes, and it does not reconnect: as long as less than 120000
    ms pass nothing happens, and after 120000 ms of silence it emits
    [ConnectionLost], then [ConnectionClosed]. Without them it attaches
    nothing, arms nothing and ignores whatever any transport handle
    emits. *)
Theorem constructed_stream data :
  let x := new_TweetStream data true in
  x.1.1 = Ok tt
  ∧ trace_of x = [AReqOn 0%nat; AResOn 0%nat; ASetTimeout KeepAliveTimeout 120000]
  ∧ (∀ d, d < 120000 → trace_of (step (Elapse d) (state_of x)) = [])
  ∧ (∀ d, 120000 ≤ d →
       emitted (trace_of (step (Elapse d) (state_of x))) = [ConnectionLost; ConnectionClosed])
  ∧ new_TweetStream data false = (Ok tt, initial data false, [])
  ∧ (∀ i, (∃ c, of_session c c i = true) →
       step i (initial data false) = (Ok tt, initial data false, [])).
Proof.
  intros x. split; [done |]. split; [done |].
  assert (Hts : timeouts (state_of x)
                = [{| timeout_id := 0; remaining := 120000;
                      callback_of := OnKeepAliveTimeout |}]) by done.
  split; [| split; [| split; [done |]]].
  - intros d Hd. by rewrite (proj1 (lone_watchdog (state_of x) _ d Hts eq_refl eq_refl)).
  - intros d Hd. by rewrite (proj2 (lone_watchdog (state_of x) _ d Hts eq_refl eq_refl)).
  - intros i [c Hi]. by destruct i.
Qed.

(** X14. A budget of zero or less allows no attempt: with
    [autoReconnect], the first connection-failed signal is answered with
    [ReconnectLimitExceeded] and [ConnectionClosed] at once, the factory
    is not asked for a connection and no timer is set. *)
Theorem nonpositive_budget_gives_up_at_once i s N :
  autoReconnect s = true →
  autoReconnectRetries s = Num N →
  N ≤ 0 →
  connection_failed i s = true →
  emitted (trace_of (step i s)) = announced i ++ [ReconnectLimitExceeded; ConnectionClosed]
  ∧ attempts (trace_of (step i s)) = []
  ∧ requests (trace_of (step i s)) = 0%nat
  ∧ timeouts_set (trace_of (step i s)) = []
  ∧ retryTimeout (state_of (step i s)) = None
  ∧ pending (state_of (step i s)) = pending s.
Proof.
  intros Hauto Hretries HN Hi.
  destruct (connection_failed_cases i s Hi) as (Hrt & _ & _ & Hset & _ & _ & _ & Hcase).
  unfold safeReconnectRetries in Hcase. rewrite Hauto, Hretries in Hcase.
  cbn [negb] in Hcase. rewrite (proj2 (Z.leb_le _ _) HN) in Hcase.
  by destruct Hcase as (? & ? & ? & ?).
Qed.

Lemma relayed_sets_no_timer s es : timeouts_set (es ≫= relayed s) = [].
Proof.
  induction es as [|[d|err] es IH]; [done | |];
    cbn [mbind list_bind]; rewrite timeouts_set_app, IH;
    unfold relayed; [by destruct (classified_as_error s d) | done].
Qed.

(** X15. With the watchdog disabled ([keepAliveTimeoutMs] infinite), a
    chunk of data clears the pending deadline and sets none: on a stream
    that tracks its timers and has no retry pending, no timer is left, and
    however long the transport stays silent afterwards the stream emits
    nothing. *)
Theorem disabled_watchdog_never_fires c chunk s (elapsed : list Z) :
  has_res_listeners c s = true →
  timeouts_tracked s = true →
  retryTimeout s = None →
  keepAliveTimeoutMs s = Infinity →
  let s1 := state_of (step (ResData c chunk) s) in
  timeouts_set (trace_of (step (ResData c chunk) s)) = []
  ∧ timeouts s1 = []
  ∧ run (Elapse <$> elapsed) s1 = (Ok tt, s1, []).
Proof.
  intros Hc Htracked Hrt Hms s1.
  destruct (onData_timers c chunk s Hc) as (_ & _ & Hts & _). fold s1 in Hts.
  assert (Hnone : cleared (keepAliveTimeout s) (timeouts s) = []).
  { rewrite <- (timeouts_tracked_cleared s Htracked). by rewrite Hrt. }
  unfold watchdog_timeouts in Hts. rewrite Hms, Hnone in Hts.
  split; [| split; [done | by apply idle_forever]].
  destruct (resetKeepAliveTimeout_eq s) as (Hreset & _).
  destruct (watchdog_rearmed_observed s) as (_ & _ & _ & Hw). rewrite Hms in Hw.
  cbv [step bind get when]. rewrite Hc. cbn [when]. unfold onData, bind. rewrite Hreset.
  destruct (decide (chunk = CRLF)).
  - cbn [trace_of snd emit app]. by rewrite timeouts_set_app, Hw.
  - rewrite push_eq. cbn [trace_of snd app]. rewrite timeouts_set_app, Hw. cbn [app].
    change (timeouts_set (AParserPush chunk :: ?l)) with (timeouts_set l).
    apply relayed_sets_no_timer.
Qed.

(** ** A manual reconnect while a retry is scheduled *)

(** With the request already destroyed, [reconnect()] goes straight to
    the factory. *)
Lemma reconnect_skips_teardown k s q :
  req s = Some q → req_destroyed q s = true →
  reconnect k s
  = (Ok tt,
     set_pending (pending s ++ [{| initialConnection := false; awaited_by := k |}]) s,
     [AMakeRequest]).
Proof.
  destruct s as [ar arr kam rt ka p [q'|] r rd evs cs pd ts n];
    intros [= <-] Hd; methods; cbn; rewrite Hd; cbn; done.
Qed.

(** With the request not yet destroyed, handling a connection failure
    destroys it. *)
Lemma onConnectionError_destroys arg s q :
  req s = Some q → req_destroyed q s = false →
  In (AReqDestroy q) (trace_of (onConnectionError arg s)).
Proof.
  destruct s as [[] arr kam [?|] [?|] p [q'|] [r'|] rd evs cs pd ts n];
    intros [= <-] Hd; methods; cbn; rewrite Hd; cbn; branches; auto 20.
Qed.

(** X16. A [reconnect()] called while the stream waits for its retry
    timer (after a failed attempt, the request destroyed) does not clear
    that timer. The call connects: [Reconnected] is emitted and the
    stream is bound to the new pair. When the retry timer expires, before
    the watchdog of the new session, its callback handles a connection
    failure: it destroys the new request, detaches the stream from the
    new pair and starts the next attempt of the old chain. The number of
    that attempt is given for retries left within the budget and a budget
    that is a safe integer. *)
Theorem reconnect_during_backoff s q t retries :
  autoReconnect s = true →
  req s = Some q →
  req_destroyed q s = true →
  timeouts s = [t] →
  callback_of t = OnRetryTimeout retries →
  1 < retries →
  retries ≤ safeReconnectRetries s →
  safeReconnectRetries s ≤ MAX_SAFE_INTEGER →
  keepAliveTimeout s = None →
  timeout_id t ≠ timeout_seq s →
  (∀ ms, keepAliveTimeoutMs s = Num ms → remaining t ≤ timeout_delay ms) →
  let c := length (connections s) in
  let x := run [Call_reconnect; Settle (length (pending s)) None] s in
  let y := step (Elapse (remaining t)) (state_of x) in
  emitted (trace_of x) = [Reconnected]
  ∧ req (state_of x) = Some c
  ∧ has_req_listeners c (state_of x) = true
  ∧ has_res_listeners c (state_of x) = true
  ∧ t ∈ timeouts (state_of x)
  ∧ In (AReqDestroy c) (trace_of y)
  ∧ has_req_listeners c (state_of y) = false
  ∧ has_res_listeners c (state_of y) = false
  ∧ attempts (trace_of y) = [safeReconnectRetries s - retries + 1]
  ∧ requests (trace_of y) = 1%nat.
Proof.
  intros Hauto Hq Hd Hts Hcb Hr _ _ Hka Hfresh Hearly c x y.
  set (p := {| initialConnection := false; awaited_by := FromOutside |}).
  set (sA := set_pending (pending s ++ [p]) s).
  assert (HA : step Call_reconnect s = (Ok tt, sA, [AMakeRequest]))
    by apply (reconnect_skips_teardown FromOutside s q Hq Hd).
  assert (HB : step (Settle (length (pending s)) None) sA = resume p None s).
  { rewrite (settle_last sA (pending s) p None) by (by destruct s). by destruct s. }
  assert (Hx : state_of x = state_of (resume p None s)
               ∧ trace_of x = AMakeRequest :: trace_of (resume p None s)).
  { subst x. rewrite !state_of_run_cons, !trace_of_run_cons, state_of_run_nil,
      trace_of_run_nil, app_nil_r, HA. cbn [state_of trace_of fst snd app].
    by rewrite HB. }
  destruct Hx as [Hstate Htrace].
  destruct (reconnect_resolved false FromOutside s)
    as (Htr & _ & Hreq & Hres & Hcs & Hka1 & Hts1 & _).
  fold p c in Htr, Hreq, Hres, Hcs, Hka1, Hts1.
  destruct (resume_keeps_configuration p None s) as (Hauto1 & Hretries1 & _).
  rewrite <- Hstate in Hreq, Hres, Hcs, Hka1, Hts1, Hauto1, Hretries1.
  set (s1 := state_of x) in *.
  destruct (watchdog_rearmed_observed s) as (Hw & _).
  unfold watchdog_timeouts in Hts1. rewrite Hka, Hts in Hts1. cbn [cleared app] in Hts1.
  assert (Hlookup : connections s1 !! c
                    = Some {| destroyed := false; req_listeners := true;
                              res_listeners := true |}).
  { rewrite Hcs, lookup_app_r by (unfold c; lia). unfold c. by rewrite Nat.sub_diag. }
  split.
  { rewrite Htrace, Htr.
    change (emitted (AMakeRequest :: ?l)) with (emitted l). by rewrite emitted_app, Hw. }
  split; [done |].
  split; [unfold has_req_listeners; by rewrite Hlookup |].
  split; [unfold has_res_listeners; by rewrite Hlookup |].
  split; [rewrite Hts1; left |].
  assert (Hear : earliest (timeouts s1) = Some t).
  { rewrite Hts1. destruct (keepAliveTimeoutMs s) as [ms|] eqn:Hms; [| done].
    cbn [earliest foldr remaining]. by rewrite (proj2 (Z.leb_le _ _) (Hearly ms eq_refl)). }
  destruct (elapse_expires s1 (remaining t) t Hear (Z.le_refl _)) as [fuel Hstep].
  set (s0 := expire t (pass (remaining t) s1)) in *.
  assert (Hs0 : req s0 = req s1 ∧ res s0 = res s1 ∧ connections s0 = connections s1
                ∧ autoReconnect s0 = autoReconnect s1
                ∧ autoReconnectRetries s0 = autoReconnectRetries s1
                ∧ keepAliveTimeout s0 = keepAliveTimeout s1
                ∧ retryTimeout s0 = retryTimeout s1)
    by (by destruct s1).
  destruct Hs0 as (Hreq0 & Hres0 & Hcs0 & Hauto0 & Hretries0 & Hka0 & Hrt0).
  rewrite Hreq in Hreq0. rewrite Hres in Hres0. rewrite Hauto1 in Hauto0.
  rewrite Hretries1 in Hretries0.
  assert (Hd0 : req_destroyed c s0 = false)
    by (unfold req_destroyed; by rewrite Hcs0, Hlookup).
  assert (Hts0 : Forall (fun x => retryTimeout s0 = Some (timeout_id x)
                                  ∨ keepAliveTimeout s0 = Some (timeout_id x))
                   (timeouts s0)).
  { apply Forall_forall. intros u Hu. right. rewrite Hka0, Hka1.
    assert (Hu' : u ∈ filter (fun v => timeout_id v ≠ timeout_id t)
                      ((fun v => {| timeout_id := timeout_id v;
                                    remaining := remaining v - remaining t;
                                    callback_of := callback_of v |}) <$> timeouts s1))
      by (by destruct s1).
    apply list_elem_of_filter in Hu' as [Hne (v & -> & Hv)%list_elem_of_fmap].
    cbn in *. rewrite Hts1 in Hv. unfold watchdog_handle.
    apply elem_of_cons in Hv as [-> | Hv]; [done |].
    destruct (keepAliveTimeoutMs s); [| by apply elem_of_nil in Hv].
    by apply list_elem_of_singleton in Hv as ->. }
  destruct (onConnectionError_cases s0 (Some (retries - 1)))
    as (_ & _ & Hidle & _ & _ & _ & _ & Hcase).
  rewrite (cleared_all _ _ _ Hts0) in Hidle.
  cbn [default from_option id] in Hcase. rewrite Hauto0, Hauto in Hcase.
  cbn [negb] in Hcase. rewrite (proj2 (Z.leb_gt _ _)) in Hcase by lia.
  destruct Hcase as (_ & Hatt & Hreqs & _).
  destruct (onConnectionError_detaches (Some (retries - 1)) s0 c c Hreq0 Hres0 Hd0)
    as [Hoffq Hoffr].
  pose proof (onConnectionError_destroys (Some (retries - 1)) s0 c Hreq0 Hd0) as Hdestroy.
  pose proof (onConnectionError_ok (Some (retries - 1)) s0) as Hok.
  assert (Hy : state_of y = state_of (onConnectionError (Some (retries - 1)) s0)
               ∧ trace_of y = trace_of (onConnectionError (Some (retries - 1)) s0)).
  { subst y. rewrite Hstep, Hcb. cbn [call]. unfold bind, state_of, trace_of in *.
    destruct (onConnectionError (Some (retries - 1)) s0) as [[r0 s2] tr2].
    cbn [fst snd] in *. subst r0. rewrite elapse_upto_idle by done.
    cbn [fst snd]. by rewrite app_nil_r. }
  destruct Hy as [-> ->].
  split; [done |]. split; [done |]. split; [done |].
  split; [| done]. rewrite Hatt. unfold safeReconnectRetries. rewrite Hretries0.
  f_equal. lia.
Qed.

(** ** Overlapping reconnects *)

(** [close()] and [destroy()] only touch the pair the stream points to. *)
Lemma close_keeps_other_pairs (destroying : bool) s c :
  req s ≠ Some c → res s ≠ Some c →
  connections (state_of (step (if destroying then Call_destroy else Call_close) s)) !! c
  = connections s !! c.
Proof.
  destruct destroying, s as [ar arr kam [?|] [?|] p [q|] [r|] rd evs cs pd ts n];
    intros Hq Hr; methods; cbn; rewrite ?list_lookup_alter;
    repeat case_decide; subst; done.
Qed.

(** X17. When a [reconnect()] resolves, the stream points to the new
    pair and forgets the one it pointed to without detaching from it: a
    session bound meanwhile (by another [reconnect()] that was in flight)
    keeps the stream's listeners, also through a later [close()] or
    [destroy()], which only tears down the pair the stream points to. Data
    arriving on the superseded response is still pushed to the parser. *)
Theorem superseded_session_stays_bound (destroying : bool) s k p c :
  pending s !! k = Some p →
  has_res_listeners c s = true →
  let s1 := state_of (step (Settle k None) s) in
  let s2 := state_of (step (if destroying then Call_destroy else Call_close) s1) in
  req s1 = Some (length (connections s))
  ∧ res s1 = Some (length (connections s))
  ∧ c ≠ length (connections s)
  ∧ has_res_listeners c s1 = true
  ∧ has_res_listeners c s2 = true
  ∧ (∀ chunk, chunk ≠ CRLF → In (AParserPush chunk) (trace_of (step (ResData c chunk) s2))).
Proof.
  intros Hk Hc s1 s2.
  assert (Hlt : (c < length (connections s))%nat).
  { unfold has_res_listeners in Hc. destruct (connections s !! c) eqn:Hl; [| done].
    by apply lookup_lt_Some in Hl. }
  subst s1 s2. rewrite (settle_pending s k p None Hk).
  set (s0 := set_pending (delete k (pending s)) s).
  destruct p as [b k0].
  destruct (reconnect_resolved b k0 s0) as (_ & _ & Hreq & Hres & Hcs & _).
  replace (connections s0) with (connections s) in * by done.
  set (s1 := state_of (resume _ None s0)) in *.
  assert (Hc1 : has_res_listeners c s1 = true).
  { unfold has_res_listeners in *. by rewrite Hcs, lookup_app_l. }
  set (s2 := state_of (step (if destroying then Call_destroy else Call_close) s1)).
  assert (Hc2 : has_res_listeners c s2 = true).
  { unfold has_res_listeners in *. unfold s2.
    rewrite close_keeps_other_pairs; [done | |]; rewrite ?Hreq, ?Hres; intros [= ?]; lia. }
  split; [done |]. split; [done |]. split; [lia |]. split; [done |]. split; [done |].
  intros chunk Hchunk. cbv [step bind get when]. rewrite Hc2. cbn [when].
  destruct (resetKeepAliveTimeout_eq s2) as (Hreset & _).
  unfold onData, bind. rewrite Hreset. destruct (decide (chunk = CRLF)); [done |].
  rewrite push_eq. cbn [trace_of snd]. apply in_or_app. right. apply in_or_app. right.
  by left.
Qed.

(** ** What stays across inputs *)

Lemma same_settings_refl s : same_settings s s.
Proof. done. Qed.

Lemma same_settings_trans s1 s2 s3 :
  same_settings s1 s2 → same_settings s2 s3 → same_settings s1 s3.
Proof. unfold same_settings. intros (-> & -> & ->) (-> & -> & ->). done. Qed.

Lemma onConnectionError_frame arg s :
  events (state_of (onConnectionError arg s)) = events s
  ∧ same_settings s (state_of (onConnectionError arg s)).
Proof.
  destruct (onConnectionError_cases s arg) as (_ & _ & _ & _ & Hauto & Hretries & Hev & _).
  split; [done |]. split; [done |]. split; [done |].
  destruct s as [[] arr kam [?|] [?|] p [q|] [r|] rd evs cs pd ts n];
    methods; cbn; branches; done.
Qed.

Lemma call_frame cb s :
  events (state_of (call cb s)) = events s ∧ same_settings s (state_of (call cb s)).
Proof.
  destruct cb as [|retries]; cbn [call]; [| apply onConnectionError_frame].
  destruct (onConnectionError_frame None s) as [Hev Hsame].
  unfold onKeepAliveTimeout, bind, emit, state_of in *.
  by destruct (onConnectionError None s) as [[? ?] ?].
Qed.

Lemma elapse_upto_frame fuel : ∀ ms s,
  events (state_of (elapse_upto fuel ms s)) = events s
  ∧ same_settings s (state_of (elapse_upto fuel ms s)).
Proof.
  induction fuel as [|fuel IH]; intros ms s; [by destruct s |].
  destruct (earliest (timeouts s)) as [t|] eqn:Ht.
  - destruct (Z.leb_spec (remaining t) ms) as [Hdue|Hlater].
    + rewrite (elapse_upto_expires fuel s ms t Ht Hdue).
      set (s0 := expire t (pass (remaining t) s)).
      destruct (call_schedules_nothing (callback_of t) s0) as [Hok _].
      rewrite (state_of_bind _ _ s0 tt Hok).
      destruct (IH (ms - remaining t) (state_of (call (callback_of t) s0))) as [-> Hsame2].
      destruct (call_frame (callback_of t) s0) as [-> Hsame1].
      split; [by destruct s |].
      eapply same_settings_trans; [| exact Hsame2].
      eapply same_settings_trans; [| exact Hsame1]. by destruct s.
    + cbn [elapse_upto]. unfold bind, get. rewrite Ht, (proj2 (Z.leb_gt _ _) Hlater).
      by destruct s.
  - cbn [elapse_upto]. unfold bind, get. by rewrite Ht.
Qed.

Lemma resume_keeps_events p rejection s :
  events (state_of (resume p rejection s)) = events s.
Proof.
  destruct s as [ar arr [kam|] rt [ka|] ps q r rd evs cs pd ts n],
    p as [b [|retries]], rejection as [e|]; methods; cbn; done.
Qed.

Lemma onData_frame chunk s :
  events (state_of (onData chunk s)) = events s
  ∧ same_settings s (state_of (onData chunk s)).
Proof.
  destruct (resetKeepAliveTimeout_eq s) as (Hreset & _ & _ & _ & Hev & _).
  assert (Hsame : same_settings s (state_of (resetKeepAliveTimeout s)))
    by (destruct s as [ar arr [kam|] rt [ka|] p q r rd evs cs pd ts n]; done).
  unfold onData, bind. rewrite Hreset.
  destruct (decide (chunk = CRLF)); [done |]. rewrite push_eq.
  cbn [state_of fst snd]. split; [by rewrite <- Hev |].
  eapply same_settings_trans; [exact Hsame | done].
Qed.

(** One input that is neither [on()] nor [destroy()] leaves the registry
    alone; one that is not [connect()] leaves the settings alone. *)
Lemma step_frame i s :
  (subscribes i = false → events (state_of (step i s)) = events s)
  ∧ (configures i = false → same_settings s (state_of (step i s))).
Proof.
  destruct i as [options| | | |ev h|c err|c err|c|c chunk|c|k rejection|ms];
    (split; [intros Hi | intros Hi]); try discriminate; cbn [step].
  - rewrite connect_eq.
    destruct (reconnect_called FromOutside (configured options s)) as (_&_&_&_& -> &_).
    by destruct s.
  - by destruct (reconnect_called FromOutside s) as (_&_&_&_& -> &_).
  - by destruct (reconnect_keeps_configuration FromOutside s) as (? & ? & ? & _).
  - destruct (close_eq s) as [-> _].
    by destruct (closeWithoutEmit_silent s) as (_&_&_&_&_&_&_&?).
  - by destruct (close_frame false s) as (_ & _ & _ & ? & ? & ? & _).
  - by destruct (close_frame true s) as (_ & _ & _ & ? & ? & ? & _).
  - by destruct s.
  - unfold bind, get. destruct (has_req_listeners c s); [| done]. cbn [when].
    destruct (errorHandler_eq err s) as [Hst _].
    destruct (onConnectionError_frame None s) as [Hev _]. rewrite <- Hst in Hev.
    unfold state_of in *. by destruct (errorHandler err s) as [[[] ?] ?].
  - unfold bind, get. destruct (has_req_listeners c s); [| done]. cbn [when].
    destruct (errorHandler_eq err s) as [Hst _].
    destruct (onConnectionError_frame None s) as [_ Hsame]. rewrite <- Hst in Hsame.
    unfold state_of in *. by destruct (errorHandler err s) as [[[] ?] ?].
  - unfold bind, get. destruct (has_res_listeners c s); [| done]. cbn [when].
    destruct (errorHandler_eq err s) as [Hst _].
    destruct (onConnectionError_frame None s) as [Hev _]. rewrite <- Hst in Hev.
    unfold state_of in *. by destruct (errorHandler err s) as [[[] ?] ?].
  - unfold bind, get. destruct (has_res_listeners c s); [| done]. cbn [when].
    destruct (errorHandler_eq err s) as [Hst _].
    destruct (onConnectionError_frame None s) as [_ Hsame]. rewrite <- Hst in Hsame.
    unfold state_of in *. by destruct (errorHandler err s) as [[[] ?] ?].
  - unfold bind, get. destruct (has_res_listeners c s); [| done]. cbn [when].
    destruct (errorHandler_eq "Connection closed by Twitter." s) as [Hst _].
    destruct (onConnectionError_frame None s) as [Hev _]. rewrite <- Hst in Hev.
    unfold state_of in *. by destruct (errorHandler _ s) as [[[] ?] ?].
  - unfold bind, get. destruct (has_res_listeners c s); [| done]. cbn [when].
    destruct (errorHandler_eq "Connection closed by Twitter." s) as [Hst _].
    destruct (onConnectionError_frame None s) as [_ Hsame]. rewrite <- Hst in Hsame.
    unfold state_of in *. by destruct (errorHandler _ s) as [[[] ?] ?].
  - unfold bind, get. destruct (has_res_listeners c s); [| done]. cbn [when].
    destruct (onData_frame chunk s) as [Hev _].
    unfold state_of in *. by destruct (onData chunk s) as [[[] ?] ?].
  - unfold bind, get. destruct (has_res_listeners c s); [| done]. cbn [when].
    destruct (onData_frame chunk s) as [_ Hsame].
    unfold state_of in *. by destruct (onData chunk s) as [[[] ?] ?].
  - by destruct s.
  - by destruct s.
  - unfold bind, get. destruct (pending s !! k) as [p|] eqn:Hk; [| done].
    pose proof (settle_pending s k p rejection Hk) as Hstep.
    cbn [step] in Hstep. unfold bind, get in Hstep. rewrite Hk in Hstep.
    by rewrite Hstep, resume_keeps_events.
  - unfold bind, get. destruct (pending s !! k) as [p|] eqn:Hk; [| done].
    pose proof (settle_pending s k p rejection Hk) as Hstep.
    cbn [step] in Hstep. unfold bind, get in Hstep. rewrite Hk in Hstep. rewrite Hstep.
    by destruct (resume_keeps_configuration p rejection
                   (set_pending (delete k (pending s)) s)) as (? & ? & ?).
  - unfold elapse. rewrite (state_of_bind get _ s s eq_refl).
    by destruct (elapse_upto_frame (length (timeouts s)) ms s).
  - unfold elapse. rewrite (state_of_bind get _ s s eq_refl).
    by destruct (elapse_upto_frame (length (timeouts s)) ms s).
Qed.

(** X18. Subscriptions and settings outlive sessions. Whatever happens
    to the stream (connection failures, retries, data, time passing,
    [connect()], [reconnect()], [close()]), its registry of handlers only
    changes by [on()] and [destroy()]: each event still reaches the same
    handlers afterwards. And [autoReconnect], [autoReconnectRetries] and
    [keepAliveTimeoutMs] only change by [connect(options)]. *)
Theorem subscriptions_and_settings_survive inputs s :
  (forallb (fun i => negb (subscribes i)) inputs = true →
   events (state_of (run inputs s)) = events s
   ∧ ∀ ev, listeners ev (state_of (run inputs s)) = listeners ev s)
  ∧ (forallb (fun i => negb (configures i)) inputs = true →
     same_settings s (state_of (run inputs s))).
Proof.
  revert s. induction inputs as [|i inputs IH]; intros s; [done |].
  rewrite state_of_run_cons. destruct (step_frame i s) as [Hev Hsame].
  destruct (IH (state_of (step i s))) as [IHev IHsame].
  cbn [forallb]. split; intros [Hi%negb_true_iff Hrest]%andb_prop.
  - destruct (IHev Hrest) as [Hevents _].
    assert (Hkept : events (state_of (run inputs (state_of (step i s)))) = events s)
      by (by rewrite Hevents, Hev).
    split; [done |]. intros ev. unfold listeners. by rewrite Hkept.
  - eapply same_settings_trans; [by apply Hsame | by apply IHsame].
Qed.

End Properties.


Lemma reconnect_limit_exceeded_witness :
  emitted (trace_of (run (ResClose 0 :: failed_attempts 2 1 0 refused) retrying_stream))
  = [ConnectionError; Error;
     ReconnectAttempt; ReconnectError; Error;
     ReconnectAttempt; ReconnectError; Error;
     ReconnectLimitExceeded; ConnectionClosed].
Proof.
  apply (reconnect_limit_exceeded (ResClose 0) retrying_stream 2 refused);
    [reflexivity | reflexivity | lia | vm_compute; discriminate | reflexivity | reflexivity].
Defined.

Lemma backoff_delay_witness :
  timeouts_set (trace_of (step (Settle 0 (Some refused)) first_attempt_in_flight))
    = [(RetryTimeout, 1000)]
  ∧ timeouts (state_of (step (Settle 0 (Some refused)) first_attempt_in_flight))
    = [{| timeout_id := 1; remaining := 1000; callback_of := OnRetryTimeout 2 |}].
Proof.
  pose proof (backoff_delay first_attempt_in_flight [] false 2 refused 1
                eq_refl eq_refl ltac:(lia)) as (Hset & _ & Hts & _).
  split; [exact Hset | exact Hts].
Defined.

(** C1 fails on the code: with a budget of two retries, the first attempt
    fails, the second succeeds, and when the new connection closes the
    stream announces attempt 0 again. *)
Lemma budget_restarts_after_reconnect :
  attempts (trace_of (run [ResClose 0; Settle 0 (Some refused); Elapse 1000;
                           Settle 0 None; ResClose 1] retrying_stream))
    = [0; 1; 0]
  ∧ ¬ @budget_survives_reconnect string string _.
Proof.
  split; [vm_compute; reflexivity |].
  intros Hsurvives.
  refine (Hsurvives second_attempt_in_flight 0%nat false 1 1%nat _ _ _ _ _);
    vm_compute; auto.
Qed.

Lemma budget_restarts_on_failure_witness :
  attempts (trace_of (step (ResClose 1) reconnected_stream)) = [0]
  ∧ pending (state_of (step (ResClose 1) reconnected_stream))
      = [{| initialConnection := false; awaited_by := FromRetry 2 |}].
Proof.
  apply (budget_restarts_on_failure (ResClose 1) reconnected_stream);
    vm_compute; reflexivity.
Defined.

Lemma chunk_received_witness :
  trace_of (step (ResData 0 CRLF) bound_stream)
  = [AClearTimeout KeepAliveTimeout; ASetTimeout KeepAliveTimeout 120000;
     AEmit DataKeepAlive VUndefined []]
  ∧ timeouts (state_of (step (ResData 0 CRLF) bound_stream))
    = [{| timeout_id := 1; remaining := 120000; callback_of := OnKeepAliveTimeout |}].
Proof.
  pose proof (chunk_received 0 CRLF bound_stream eq_refl) as (_ & Hts & Hcrlf & _).
  destruct (Hcrlf eq_refl) as (Htrace & _).
  split; [exact Htrace | exact Hts].
Defined.

(** C2 fails on the code. The request is destroyed under the stream, so
    when its error is handled the stream stays attached to the pair. The
    one attempt the budget allows fails and the chain ends with
    [ReconnectLimitExceeded] and [ConnectionClosed]. When the response of
    the same pair then closes, the stream handles a connection failure
    once more: it makes a further attempt and, as it fails, emits
    [ReconnectLimitExceeded] and [ConnectionClosed] a second time. *)
Theorem retries_again_after_limit_exceeded :
  emitted (trace_of (run exhausting_chain retrying_once_stream))
    = [ConnectionError; Error; ReconnectAttempt; ReconnectError; Error;
       ReconnectLimitExceeded; ConnectionClosed]
  ∧ connection_failed (ResClose 0) (state_of (run exhausting_chain retrying_once_stream))
    = true
  ∧ emitted (trace_of (run late_close
                         (state_of (run exhausting_chain retrying_once_stream))))
    = [ConnectionError; Error; ReconnectAttempt; ReconnectError; Error;
       ReconnectLimitExceeded; ConnectionClosed]
  ∧ occurrences ReconnectLimitExceeded
      (emitted (trace_of (run (exhausting_chain ++ late_close) retrying_once_stream)))
    = 2%nat
  ∧ occurrences ConnectionClosed
      (emitted (trace_of (run (exhausting_chain ++ late_close) retrying_once_stream)))
    = 2%nat
  ∧ requests (trace_of (run (exhausting_chain ++ late_close) retrying_once_stream))
    = 2%nat.
Proof. repeat split; vm_compute; reflexivity. Qed.

(** C8 fails on the code. The request is destroyed under the stream, so
    the request's error and the response's close both reach the stream and
    each starts a retry chain; both attempts fail and the second retry
    timer overwrites the handle of the first. [close()] clears only the
    timer it holds the handle of: the other one stays scheduled, and a
    second later it announces a reconnect attempt and asks the factory for
    a connection. *)
Theorem close_leaves_overwritten_retry_timer :
  timeouts (state_of (run (overlapping_chains ++ [Call_close]) retrying_stream))
    = [{| timeout_id := 1; remaining := 1000; callback_of := OnRetryTimeout 2 |}]
  ∧ trace_of (step (Elapse 1000)
                (state_of (run (overlapping_chains ++ [Call_close]) retrying_stream)))
    = [AEmit ReconnectAttempt (VNumber 1) []; AMakeRequest].
Proof. split; vm_compute; reflexivity. Qed.

Lemma clone_preserves_subscriptions_witness :
  ∃ j newStream,
    clone 7 None one_stream = Some (Ok j, <[j := newStream]> one_stream)
    ∧ j ≠ 7%nat
    ∧ listeners Data newStream = [1; 3]%nat
    ∧ listeners ConnectionClosed newStream = [2]%nat.
Proof.
  destruct (clone_preserves_subscriptions 7 one_stream subscribed_stream)
    as (j & newStream & Hclone & Hne & _ & _ & _ & Hsame & _).
  - reflexivity.
  - vm_compute. repeat constructor; set_solver.
  - exists j, newStream. split; [exact Hclone |]. split; [exact Hne |].
    split; [exact (Hsame Data) | exact (Hsame ConnectionClosed)].
Defined.

Lemma close_cancels_every_tracked_timer_witness :
  timeouts (state_of (step Call_close (state_of (run recovering retrying_stream)))) = []
  ∧ trace_of (run [Elapse 500000]
                (state_of (step Call_close (state_of (run recovering retrying_stream)))))
    = [].
Proof.
  pose proof (close_cancels_every_tracked_timer false recovering retrying_stream [500000]
                ltac:(vm_compute; reflexivity) ltac:(vm_compute; reflexivity))
    as (_ & Hts & _ & _ & Hidle).
  split; [exact Hts |]. cbn [fmap list_fmap] in Hidle. by rewrite Hidle.
Defined.

Lemma closed_session_is_ignored_witness :
  step (ResClose 0) (state_of (step Call_close bound_stream))
  = (Ok tt, state_of (step Call_close bound_stream), []).
Proof.
  pose proof (closed_session_is_ignored false bound_stream 0%nat 0%nat eq_refl eq_refl)
    as (_ & _ & Hclose & _).
  exact Hclose.
Defined.

Lemma close_keeps_reconnect_in_flight_witness :
  emitted (trace_of (step (Settle 0 None)
                       (state_of (step Call_close first_attempt_in_flight))))
    = [Reconnected]
  ∧ timeouts_set (trace_of (step (Settle 0 (Some refused))
                              (state_of (step Call_close first_attempt_in_flight))))
    = [(RetryTimeout, 1000)].
Proof.
  pose proof (close_keeps_reconnect_in_flight false first_attempt_in_flight 0%nat
                {| initialConnection := false; awaited_by := FromRetry 2 |}
                ltac:(vm_compute; reflexivity))
    as (_ & (Hresolved & _) & Hrejected).
  split; [exact Hresolved |].
  destruct (Hrejected 2 refused eq_refl) as (_ & Hset & _). exact Hset.
Defined.

Lemma failing_session_reported_once_witness :
  step (ResData 0 "{}") (state_of (step (ResClose 0) retrying_stream))
  = (Ok tt, state_of (step (ResClose 0) retrying_stream), []).
Proof.
  apply (failing_session_reported_once (ResClose 0) (ResData 0 "{}") retrying_stream
           0%nat 0%nat); vm_compute; reflexivity.
Defined.

Lemma destroyed_request_keeps_listeners_witness :
  attempts (trace_of (run [ReqError 0 "socket hang up"; ResClose 0] destroyed_under))
    = [0; 0]
  ∧ requests (trace_of (run [ReqError 0 "socket hang up"; ResClose 0] destroyed_under))
    = 2%nat.
Proof.
  pose proof (destroyed_request_keeps_listeners (ReqError 0 "socket hang up")
                destroyed_under 0%nat
                ltac:(vm_compute; reflexivity) ltac:(vm_compute; reflexivity)
                ltac:(vm_compute; reflexivity))
    as (_ & _ & _ & Htwice).
  apply (Htwice ltac:(vm_compute; reflexivity) ltac:(vm_compute; reflexivity) (ResClose 0));
    [intros ms; discriminate | vm_compute; reflexivity].
Defined.

Lemma watchdog_waits_full_interval_witness :
  trace_of (step (Elapse 999) (state_of (step (ResData 0 "{}") retrying_stream))) = []
  ∧ emitted (trace_of (step (Elapse 1000)
                         (state_of (step (ResData 0 "{}") retrying_stream))))
    = [ConnectionLost; ReconnectAttempt].
Proof.
  pose proof (watchdog_waits_full_interval 0%nat "{}" retrying_stream 1000
                ltac:(vm_compute; reflexivity) ltac:(vm_compute; reflexivity)
                ltac:(vm_compute; reflexivity) ltac:(vm_compute; reflexivity)
                ltac:(lia))
    as [Hbefore Hafter].
  split; [apply Hbefore; lia | apply Hafter; lia].
Defined.

Lemma nonpositive_budget_gives_up_at_once_witness :
  emitted (trace_of (step (ResClose 0) impatient_stream))
    = [ConnectionError; Error; ReconnectLimitExceeded; ConnectionClosed]
  ∧ requests (trace_of (step (ResClose 0) impatient_stream)) = 0%nat.
Proof.
  pose proof (nonpositive_budget_gives_up_at_once (ResClose 0) impatient_stream 0
                ltac:(vm_compute; reflexivity) ltac:(vm_compute; reflexivity)
                ltac:(lia) ltac:(vm_compute; reflexivity))
    as (Hemit & _ & Hreq & _).
  split; [exact Hemit | exact Hreq].
Defined.

Lemma disabled_watchdog_never_fires_witness :
  timeouts (state_of (step (ResData 0 "{}") unwatched_stream)) = []
  ∧ trace_of (run [Elapse 86400000] (state_of (step (ResData 0 "{}") unwatched_stream)))
    = [].
Proof.
  pose proof (disabled_watchdog_never_fires 0%nat "{}" unwatched_stream [86400000]
                ltac:(vm_compute; reflexivity) ltac:(vm_compute; reflexivity)
                ltac:(vm_compute; reflexivity) ltac:(vm_compute; reflexivity))
    as (_ & Hts & Hidle).
  split; [exact Hts |]. cbn [fmap list_fmap] in Hidle. by rewrite Hidle.
Defined.

Lemma reconnect_during_backoff_witness :
  emitted (trace_of (run [Call_reconnect; Settle 0 None] waiting_for_retry))
    = [Reconnected]
  ∧ attempts (trace_of (step (Elapse 1000)
                          (state_of (run [Call_reconnect; Settle 0 None]
                                       waiting_for_retry))))
    = [1]
  ∧ has_res_listeners 1
      (state_of (step (Elapse 1000)
                   (state_of (run [Call_reconnect; Settle 0 None] waiting_for_retry))))
    = false.
Proof.
  pose proof (reconnect_during_backoff waiting_for_retry 0%nat
                {| timeout_id := 1; remaining := 1000; callback_of := OnRetryTimeout 2 |} 2
                ltac:(vm_compute; reflexivity) ltac:(vm_compute; reflexivity)
                ltac:(vm_compute; reflexivity) ltac:(vm_compute; reflexivity)
                ltac:(reflexivity) ltac:(lia) ltac:(vm_compute; discriminate)
                ltac:(vm_compute; discriminate) ltac:(vm_compute; reflexivity)
                ltac:(vm_compute; lia)
                ltac:(intros ms [= <-]; vm_compute; discriminate))
    as (Hemit & _ & _ & _ & _ & _ & _ & Hoff & Hatt & _).
  split; [exact Hemit |]. split; [exact Hatt | exact Hoff].
Defined.

Lemma superseded_session_stays_bound_witness :
  req (state_of (step (Settle 0 None) overlapping_reconnects)) = Some 2%nat
  ∧ has_res_listeners 1
      (state_of (step Call_close (state_of (step (Settle 0 None) overlapping_reconnects))))
    = true.
Proof.
  pose proof (superseded_session_stays_bound false overlapping_reconnects 0%nat
                {| initialConnection := false; awaited_by := FromOutside |} 1%nat
                ltac:(vm_compute; reflexivity) ltac:(vm_compute; reflexivity))
    as (Hreq & _ & _ & _ & Hbound & _).
  split; [exact Hreq | exact Hbound].
Defined.
